(** * file-producer: recursive removal and directory creation over a
      remote-filesystem client

    A shallow embedding of the Go package [producer] and of its three
    backends ([remote/ftp], [remote/sftp], [local]).

    - The client libraries (goftp, pkg/sftp, package os) are the
      environment: each is a record of state-passing primitives over an
      arbitrary state, so that what is proved for "any client" holds for
      whatever the server answers, and for whatever other users of the
      server do between two calls.
    - Go errors are values of [error]; nil is [None].
    - The recursion of [RemoveAllRecursive] and its two [for] loops are
      bounded by fuel.  Running out of fuel is the result [None] of the
      state-passing function; a call that returns gives [Some].  A result
      obtained with some fuel is obtained with any larger fuel
      ([RemoveAll_fuel_mono]), and "never returns" is stated as: [None]
      for every fuel.
    - [MemFS] is a server: a tree of files and directories with the
      failures section 4.1 of the specification gives the primitives.  It
      is used where a statement is about trees; [Log] records the calls a
      client receives. *)

From Stdlib Require Import String Ascii List Arith Lia Bool.
From Stdlib Require Decimal DecimalString.
Import ListNotations.
Open Scope string_scope.

(* ================================================================== *)
(** ** Go strings *)

Module GoString.

(** [strings.Contains(s, substr)]. *)
Fixpoint Contains (s substr : string) : bool :=
  prefix substr s ||
  match s with
  | EmptyString => false
  | String _ s' => Contains s' substr
  end.

(** [s[i] == '/'] for an index that may be out of range (then [false]). *)
Definition is_sep (s : string) (i : nat) : bool :=
  match get i s with
  | Some c => Ascii.eqb c "/"%char
  | None => false
  end.

(** [s[lo:hi]]. *)
Definition slice (s : string) (lo hi : nat) : string :=
  substring lo (hi - lo) s.

End GoString.
Import GoString.

(* ================================================================== *)
(** ** Go errors: [io/fs] sentinels, [fmt.Errorf] with [%w], [os.PathError] *)

Module GoError.

(** The sentinel values of [io/fs]. *)
Inductive Sentinel : Type :=
| ErrInvalid | ErrPermission | ErrExist | ErrNotExist | ErrClosed.

Definition Sentinel_eqb (a b : Sentinel) : bool :=
  match a, b with
  | ErrInvalid, ErrInvalid | ErrPermission, ErrPermission
  | ErrExist, ErrExist | ErrNotExist, ErrNotExist
  | ErrClosed, ErrClosed => true
  | _, _ => false
  end.

Definition Sentinel_text (s : Sentinel) : string :=
  match s with
  | ErrInvalid => "invalid argument"
  | ErrPermission => "permission denied"
  | ErrExist => "file already exists"
  | ErrNotExist => "file does not exist"
  | ErrClosed => "file already closed"
  end.

Inductive Errno : Type := ENOTDIR.

(** A non-nil Go [error] value, as far as this package can tell them apart:
    - [Sentinel_err s]: the sentinel itself (pkg/sftp hands out
      [os.ErrNotExist] and [os.ErrPermission] directly);
    - [Library msg w]: an error made by a client library, with its text and
      the sentinel [errors.Is] finds in its chain, if any;
    - [StatusError msg]: a [*sftp.StatusError] with its rendered text;
    - [Errorf msg w]: the result of [fmt.Errorf("...%w", ..., w)], [msg]
      being the whole formatted text;
    - [PathError op path e]: [&os.PathError{Op, Path, Err}]. *)
Inductive error : Type :=
| Sentinel_err (s : Sentinel)
| Library (msg : string) (wraps : option Sentinel)
| StatusError (msg : string)
| Errorf (msg : string) (w : Sentinel)
| PathError (op path : string) (e : Errno).

(** [err.Error()]. *)
Definition Error (e : error) : string :=
  match e with
  | Sentinel_err s => Sentinel_text s
  | Library msg _ => msg
  | StatusError msg => msg
  | Errorf msg _ => msg
  | PathError op path ENOTDIR => op ++ " " ++ path ++ ": not a directory"
  end.

(** [errors.Is(err, target)] for a sentinel target. *)
Definition errors_Is (e : error) (target : Sentinel) : bool :=
  match e with
  | Sentinel_err s => Sentinel_eqb s target
  | Library _ (Some s) => Sentinel_eqb s target
  | Library _ None => false
  | StatusError _ => false
  | Errorf _ w => Sentinel_eqb w target
  | PathError _ _ ENOTDIR => false
  end.

(** [errors.Is(err, target)] on a possibly nil error. *)
Definition errors_Is_opt (e : option error) (target : Sentinel) : bool :=
  match e with
  | Some e => errors_Is e target
  | None => false
  end.

(** [fmt.Errorf("%s: %s: %w", a, b, w)]. *)
Definition Errorf_s_s_w (a b : string) (w : Sentinel) : error :=
  Errorf (a ++ ": " ++ b ++ ": " ++ Sentinel_text w) w.

(** [fmt.Errorf("%s: %s: Directory is not empty: %w", a, b, w)]. *)
Definition Errorf_not_empty (a b : string) (w : Sentinel) : error :=
  Errorf (a ++ ": " ++ b ++ ": Directory is not empty: " ++ Sentinel_text w) w.

End GoError.
Import GoError.

(** [fs.FileInfo], reduced to the two methods the package calls. *)
Record FileInfo : Type := mkInfo { Name : string; IsDir : bool }.

(* ================================================================== *)
(** ** State passing *)

(** A call that always returns. *)
Definition State (St A : Type) : Type := St -> A * St.

(** A call that may exhaust its fuel ([None]). *)
Definition M (St A : Type) : Type := St -> option (A * St).

Definition ret {St A} (a : A) : M St A := fun s => Some (a, s).

Definition bind {St A B} (m : M St A) (k : A -> M St B) : M St B :=
  fun s => match m s with
           | Some (a, s') => k a s'
           | None => None
           end.

Definition lift {St A} (m : State St A) : M St A := fun s => Some (m s).

Definition out_of_fuel {St A} : M St A := fun _ => None.

Declare Scope go_scope.
Delimit Scope go_scope with go.
Notation "x <- m ;; k" := (bind m (fun x => k))
  (at level 61, m at next level, right associativity) : go_scope.
Notation "' p <- m ;; k" := (bind m (fun p => k))
  (at level 61, p pattern, m at next level, right associativity) : go_scope.

(** Control leaving a loop body: [break], [break DIR], [return e]. *)
Inductive Flow : Type :=
| Break
| BreakDIR
| Return (e : option error).

(* ================================================================== *)
(** ** The FTP backend ([remote/ftp/ftp.go]) *)

Module FTP.

(** The methods of [*goftp.Client] that [producerFTP] calls. *)
Record Client (St : Type) : Type := mkClient {
  c_Stat : string -> State St (FileInfo + error);
  c_ReadDir : string -> State St (list FileInfo + error);
  c_Delete : string -> State St (option error);
  c_Rmdir : string -> State St (option error);
  c_Mkdir : string -> State St (string * option error);
  c_Close : State St (option error)
}.
Arguments c_Stat {St}.
Arguments c_ReadDir {St}.
Arguments c_Delete {St}.
Arguments c_Rmdir {St}.
Arguments c_Mkdir {St}.
Arguments c_Close {St}.

Section Producer.
Context {St : Type} (c : Client St).
Local Open Scope go_scope.

Definition Close : State St (option error) := c_Close c.

Definition Stat (path : string) : State St (FileInfo + error) :=
  c_Stat c path.

Definition ReadDir (path : string) : State St (list FileInfo + error) :=
  c_ReadDir c path.

Definition DeleteFile (path : string) : State St (option error) :=
  c_Delete c path.

Definition MakeDir (path : string) : State St (option error) :=
  fun s => let '((_, err), s') := c_Mkdir c path s in (err, s').

Definition DeleteDir (path : string) : State St (option error) :=
  c_Rmdir c path.

(** [RemoveAny] (ftp.go, lines 191-208). *)
Definition RemoveAny (path : string) : State St (option error) :=
  fun s =>
    match Stat path s with
    | (inr err, s1) =>
        (Some (Errorf_s_s_w path (Error err) ErrNotExist), s1)
    | (inl dir, s1) =>
        if IsDir dir then
          match DeleteDir path s1 with
          | (Some err, s2) =>
              (Some (Errorf_not_empty path (Error err) ErrPermission), s2)
          | (None, s2) => (None, s2)
          end
        else
          match DeleteFile path s1 with
          | (Some err, s2) =>
              (Some (Errorf_s_s_w path (Error err) ErrInvalid), s2)
          | (None, s2) => (None, s2)
          end
    end.

Definition Remove (path : string) : State St (option error) := RemoveAny path.

(** [for i > 0 && path[i-1] == '/' { i-- }] (line 156). *)
Fixpoint skip_trailing (path : string) (i : nat) : nat :=
  match i with
  | O => O
  | S i' => if is_sep path i' then skip_trailing path i' else i
  end.

(** [for j > 0 && path[j-1] != '/' { j-- }] (line 161). *)
Fixpoint scan_element (path : string) (j : nat) : nat :=
  match j with
  | O => O
  | S j' => if is_sep path j' then j else scan_element path j'
  end.

(** Lines 173-185: [MakeDir], and on failure the second [Stat]. *)
Definition MakeDir_checked (path : string) : State St (option error) :=
  fun s =>
    match MakeDir path s with
    | (Some err, s1) =>
        match Stat path s1 with
        | (inl dir, s2) => if IsDir dir then (None, s2) else (Some err, s2)
        | (inr _, s2) => (Some err, s2)
        end
    | (None, s1) => (None, s1)
    end.

(** [MkdirAll] (lines 143-186).  The fuel bounds the recursion on the
    parent, which is a strictly shorter string. *)
Fixpoint MkdirAll_fuel (fuel : nat) (path : string) : M St (option error) :=
  fun s =>
    match Stat path s with
    | (inl dir, s1) =>
        if IsDir dir then Some (None, s1)
        else Some (Some (PathError "mkdir" path ENOTDIR), s1)
    | (inr _, s1) =>
        let i := skip_trailing path (String.length path) in
        let j := scan_element path i in
        if (1 <? j)%nat then
          match fuel with
          | O => None
          | S fuel' =>
              match MkdirAll_fuel fuel' (slice path 0 (j - 1)) s1 with
              | None => None
              | Some (Some err, s2) => Some (Some err, s2)
              | Some (None, s2) => Some (MakeDir_checked path s2)
              end
          end
        else Some (MakeDir_checked path s1)
    end.

Definition MkdirAll (path : string) : M St (option error) :=
  MkdirAll_fuel (String.length path) path.

Definition MakedirAll (path : string) : M St (option error) := MkdirAll path.

(** Lines 264-272: the [range names] loop.  [err] is the variable declared
    with the listing (line 238); [numErr] counts the failed calls. *)
Fixpoint range_names (rec : string -> M St (option error)) (path : string)
    (names : list string) (err : option error) (numErr : nat)
    : M St (option error * nat) :=
  match names with
  | [] => ret (err, numErr)
  | name :: rest =>
      err1 <- rec (path ++ "/" ++ name) ;;
      range_names rec path rest
        (match err with None => err1 | Some _ => err end)
        (match err1 with Some _ => S numErr | None => numErr end)
  end.

(** Lines 251-291: the inner [for].  [names] is the slice declared at line
    250, outside this loop: the function literal of line 253 appends the
    names of [infos] to it on every pass and returns it, so the inner
    [names] of a pass is the outer one after the append. *)
Fixpoint retry_loop (fuel : nat) (rec : string -> M St (option error))
    (path : string) (infos : list FileInfo) (entities : nat)
    (names : list string) (err : option error) : M St Flow :=
  match fuel with
  | O => out_of_fuel
  | S fuel' =>
      let names := (names ++ map Name infos)%list in
      if (List.length names =? 0)%nat then ret BreakDIR
      else
        '(err, numErr) <- range_names rec path names err 0 ;;
        if negb (numErr =? entities)%nat then ret Break
        else if (List.length names =? 0)%nat then ret Break
        else if (List.length names <? entities)%nat then
          err1 <- lift (RemoveAny path) ;;
          match err1 with
          | None => ret (Return None)
          | Some e1 =>
              if errors_Is e1 ErrNotExist then ret (Return None)
              else
                match err with
                | Some _ => ret (Return err)
                | None => retry_loop fuel' rec path infos entities names err
                end
          end
        else retry_loop fuel' rec path infos entities names err
  end.

(** Lines 236-292: the loop labelled [DIR].  [Break] stands for leaving the
    loop towards line 293. *)
Fixpoint DIR_loop (fuel : nat) (rec : string -> M St (option error))
    (path : string) : M St Flow :=
  match fuel with
  | O => out_of_fuel
  | S fuel' =>
      r <- lift (ReadDir path) ;;
      match r with
      | inr err =>
          if errors_Is err ErrNotExist then ret (Return None)
          else ret (Return (Some err))
      | inl infos =>
          let entities := List.length infos in
          if (entities =? 0)%nat then ret Break
          else
            f <- retry_loop fuel' rec path infos entities [] None ;;
            match f with
            | Break => DIR_loop fuel' rec path
            | BreakDIR => ret Break
            | Return e => ret (Return e)
            end
      end
  end.

(** Lines 293-299: the last [RemoveAny]. *)
Definition remove_directory (path : string) : State St (option error) :=
  fun s =>
    match RemoveAny path s with
    | (None, s1) => (None, s1)
    | (Some e1, s1) =>
        if errors_Is e1 ErrNotExist then (None, s1) else (Some e1, s1)
    end.

(** [RemoveAllRecursive] (lines 214-300).  The fuel bounds the depth of the
    recursion and the number of passes of each loop. *)
Fixpoint RemoveAllRecursive (fuel : nat) (path : string)
    : M St (option error) :=
  if (path =? "")%string then ret None
  else
    err <- lift (RemoveAny path) ;;
    match err with
    | None => ret None
    | Some e =>
        if errors_Is e ErrNotExist then ret None
        else if negb (Contains (Error e) "Directory is not empty")
        then ret (Some e)
        else
          match fuel with
          | O => out_of_fuel
          | S fuel' =>
              f <- DIR_loop fuel' (RemoveAllRecursive fuel') path ;;
              match f with
              | Return e => ret e
              | _ => lift (remove_directory path)
              end
          end
    end.

Definition RemoveAll (path : string) (fuel : nat) : M St (option error) :=
  RemoveAllRecursive fuel path.

End Producer.
End FTP.

(* ================================================================== *)
(** ** The SFTP backend ([remote/sftp]) *)

Module SFTP.

(** The methods of [*sftp.Client] and [*ssh.Client] that [sftpProducer]
    calls. *)
Record Client (St : Type) : Type := mkClient {
  c_Stat : string -> State St (FileInfo + error);
  c_ReadDir : string -> State St (list FileInfo + error);
  c_Remove : string -> State St (option error);
  c_RemoveDirectory : string -> State St (option error);
  c_Mkdir : string -> State St (option error);
  c_MkdirAll : string -> State St (option error);
  c_Close : State St (option error);
  ssh_Close : State St (option error)
}.
Arguments c_Stat {St}.
Arguments c_ReadDir {St}.
Arguments c_Remove {St}.
Arguments c_RemoveDirectory {St}.
Arguments c_Mkdir {St}.
Arguments c_MkdirAll {St}.
Arguments c_Close {St}.
Arguments ssh_Close {St}.

Section Producer.
Context {St : Type} (c : Client St).
Local Open Scope go_scope.

(** [Close] (lines 103-107): [err] is assigned twice. *)
Definition Close : State St (option error) :=
  fun s =>
    let '(err, s1) := c_Close c s in
    let '(err, s2) := ssh_Close c s1 in
    (err, s2).

Definition MakedirAll (path : string) : State St (option error) :=
  c_MkdirAll c path.

Definition ReadDir (path : string) : State St (list FileInfo + error) :=
  c_ReadDir c path.

(** [err == fs.ErrPermission]: identity with the sentinel. *)
Definition is_ErrPermission (e : error) : bool :=
  match e with
  | Sentinel_err ErrPermission => true
  | _ => false
  end.

(** [Remove] (lines 147-153). *)
Definition Remove (path : string) : State St (option error) :=
  fun s =>
    match c_Remove c path s with
    | (Some err, s1) =>
        if is_ErrPermission err then c_RemoveDirectory c path s1
        else (Some err, s1)
    | (None, s1) => (None, s1)
    end.

Definition DeleteFile (path : string) : State St (option error) :=
  c_Remove c path.

Definition MakeDir (path : string) : State St (option error) :=
  c_Mkdir c path.

Definition DeleteDir (path : string) : State St (option error) :=
  c_RemoveDirectory c path.

Definition Stat (path : string) : State St (FileInfo + error) :=
  c_Stat c path.

(** Lines 231-239. *)
Fixpoint range_names (rec : string -> M St (option error)) (path : string)
    (names : list string) (err : option error) (numErr : nat)
    : M St (option error * nat) :=
  match names with
  | [] => ret (err, numErr)
  | name :: rest =>
      err1 <- rec (path ++ "/" ++ name) ;;
      range_names rec path rest
        (match err with None => err1 | Some _ => err end)
        (match err1 with Some _ => S numErr | None => numErr end)
  end.

(** Lines 220-245: the inner [for]; it hands the outer [names] and [err]
    back to the code that follows it. *)
Fixpoint retry_loop (fuel : nat) (rec : string -> M St (option error))
    (path : string) (infos : list FileInfo) (entities : nat)
    (names : list string) (err : option error)
    : M St (Flow * list string * option error) :=
  match fuel with
  | O => out_of_fuel
  | S fuel' =>
      let names := (names ++ map Name infos)%list in
      if (List.length names =? 0)%nat then ret (BreakDIR, names, err)
      else
        '(err, numErr) <- range_names rec path names err 0 ;;
        if negb (numErr =? entities)%nat then ret (Break, names, err)
        else retry_loop fuel' rec path infos entities names err
  end.

(** Lines 206-256: the loop labelled [DIR]. *)
Fixpoint DIR_loop (fuel : nat) (rec : string -> M St (option error))
    (path : string) : M St Flow :=
  match fuel with
  | O => out_of_fuel
  | S fuel' =>
      r <- lift (ReadDir path) ;;
      match r with
      | inr err =>
          if errors_Is err ErrNotExist then ret (Return None)
          else ret (Return (Some err))
      | inl infos =>
          let entities := List.length infos in
          if (entities =? 0)%nat then ret Break
          else
            '(f, names, err) <-
              retry_loop fuel' rec path infos entities [] None ;;
            match f with
            | BreakDIR => ret Break
            | Return e => ret (Return e)
            | Break =>
                if (List.length names <? entities)%nat then
                  err1 <- lift (DeleteDir path) ;;
                  if match err1 with
                     | None => true
                     | Some e1 => errors_Is e1 ErrNotExist
                     end
                  then ret (Return None)
                  else
                    match err with
                    | Some _ => ret (Return err)
                    | None => DIR_loop fuel' rec path
                    end
                else DIR_loop fuel' rec path
            end
      end
  end.

(** Lines 258-264. *)
Definition remove_directory (path : string) : State St (option error) :=
  fun s =>
    match DeleteDir path s with
    | (None, s1) => (None, s1)
    | (Some e1, s1) =>
        if errors_Is e1 ErrNotExist then (None, s1) else (Some e1, s1)
    end.

(** The type assertion of [err] to a [gosftp.StatusError] pointer followed
    by the test on [status.Error()] (lines 199-203). *)
Definition is_other_status (e : error) : bool :=
  match e with
  | StatusError _ => negb (Contains (Error e) "Directory is not empty")
  | _ => false
  end.

(** [RemoveAllRecursive] (lines 183-265). *)
Fixpoint RemoveAllRecursive (fuel : nat) (path : string)
    : M St (option error) :=
  if (path =? "")%string then ret None
  else
    err <- lift (Remove path) ;;
    match err with
    | None => ret None
    | Some e =>
        if errors_Is e ErrNotExist then ret None
        else if is_other_status e then ret (Some e)
        else
          match fuel with
          | O => out_of_fuel
          | S fuel' =>
              f <- DIR_loop fuel' (RemoveAllRecursive fuel') path ;;
              match f with
              | Return e => ret e
              | _ => lift (remove_directory path)
              end
          end
    end.

Definition RemoveAll (path : string) (fuel : nat) : M St (option error) :=
  RemoveAllRecursive fuel path.

End Producer.
End SFTP.

(* ================================================================== *)
(** ** The local backend ([local/local.go]) *)

Module Local.

(** The functions of package [os] that [localProducer] calls. *)
Record OS (St : Type) : Type := mkOS {
  os_Stat : string -> State St (FileInfo + error);
  os_MkdirAll : string -> nat -> State St (option error);
  os_Mkdir : string -> nat -> State St (option error);
  os_Remove : string -> State St (option error);
  os_RemoveAll : string -> State St (option error)
}.
Arguments os_Stat {St}.
Arguments os_MkdirAll {St}.
Arguments os_Mkdir {St}.
Arguments os_Remove {St}.
Arguments os_RemoveAll {St}.

Section Producer.
Context {St : Type} (os : OS St).

(** The error half of a [(value, error)] result. *)
Definition err_of {A} (r : A + error) : option error :=
  match r with
  | inl _ => None
  | inr e => Some e
  end.

(** [MakedirAll] (lines 28-33); [0666] is 438. *)
Definition MakedirAll (path : string) : State St (option error) :=
  fun s =>
    let '(r, s1) := os_Stat os path s in
    if errors_Is_opt (err_of r) ErrNotExist then os_MkdirAll os path 438 s1
    else (None, s1).

(** [MakeDir] (lines 72-77); [0700] is 448. *)
Definition MakeDir (path : string) : State St (option error) :=
  fun s =>
    let '(r, s1) := os_Stat os path s in
    if errors_Is_opt (err_of r) ErrNotExist then os_Mkdir os path 448 s1
    else (None, s1).

Definition Remove (path : string) : State St (option error) :=
  os_Remove os path.

Definition RemoveAll (path : string) : State St (option error) :=
  os_RemoveAll os path.

Definition DeleteFile (path : string) : State St (option error) :=
  os_Remove os path.

Definition DeleteDir (path : string) : State St (option error) :=
  os_Remove os path.

Definition Stat (path : string) : State St (FileInfo + error) :=
  os_Stat os path.

End Producer.
End Local.

(* ================================================================== *)
(** ** A server: the tree the client operations act on *)

(** Modelled from the spec: the server that answers the client libraries
    (goftp, pkg/sftp, package os) is not part of the repository.  Its
    primitives fail the way sections 4.1 and 6 of the specification say:
    [stat] and [listDirectory] fail with NotFound on an absent path, an
    empty directory lists as the empty sequence, [removeEmptyDirectory]
    fails on a directory that still has children, [makeOneDirectory] fails
    when the parent is missing.  A path in [locked] is an entry the server
    refuses to remove. *)

Module MemFS.

(** The entries of the tree, by full path; [true] marks a directory. *)
Record FS : Type := mkFS {
  entries : list (string * bool);
  locked : list string
}.

Definition key_is (p : string) (e : string * bool) : bool :=
  (fst e =? p)%string.

Definition lookup (p : string) (fs : FS) : option bool :=
  match find (key_is p) (entries fs) with
  | Some (_, d) => Some d
  | None => None
  end.

(** [q] is [p] or lies below [p]. *)
Definition under (p q : string) : bool :=
  (q =? p)%string || prefix (p ++ "/") q.

(** The name of [q] inside [p], when [q] is an immediate child of [p]. *)
Definition child_name (p q : string) : option string :=
  if prefix (p ++ "/") q then
    let n := slice q (String.length p + 1) (String.length q) in
    if Contains n "/" then None else Some n
  else None.

Definition children (p : string) (fs : FS) : list FileInfo :=
  flat_map (fun e => match child_name p (fst e) with
                     | Some n => [mkInfo n (snd e)]
                     | None => []
                     end) (entries fs).

(** Index of the last separator among the first [n] bytes of [s]. *)
Fixpoint last_sep (s : string) (n : nat) : option nat :=
  match n with
  | O => None
  | S n' => if is_sep s n' then Some n' else last_sep s n'
  end.

Definition dirname (s : string) : option string :=
  match last_sep s (String.length s) with
  | Some i => Some (slice s 0 i)
  | None => None
  end.

Definition basename (s : string) : string :=
  match last_sep s (String.length s) with
  | Some i => slice s (S i) (String.length s)
  | None => s
  end.

Definition is_locked (p : string) (fs : FS) : bool :=
  existsb (String.eqb p) (locked fs).

Definition erase (p : string) (fs : FS) : FS :=
  mkFS (filter (fun e => negb (key_is p e)) (entries fs)) (locked fs).

Definition create (p : string) (d : bool) (fs : FS) : FS :=
  mkFS (entries fs ++ [(p, d)]) (locked fs).

(** Removing [p] and everything below it. *)
Definition prune (p : string) (fs : FS) : FS :=
  mkFS (filter (fun e => negb (under p (fst e))) (entries fs)) (locked fs).

Definition count_under (p : string) (fs : FS) : nat :=
  List.length (filter (fun e => under p (fst e)) (entries fs)).

Definition not_found : error :=
  Library "550 No such file or directory." (Some ErrNotExist).
Definition not_a_directory : error := Library "550 Not a directory." None.
Definition is_a_directory : error := Library "550 Is a directory." None.
Definition refused : error := Library "550 Permission denied." None.
Definition not_empty : error := Library "550 Directory not empty." None.
Definition exists_already : error := Library "550 File exists." (Some ErrExist).

Definition fs_Stat (p : string) : State FS (FileInfo + error) :=
  fun fs =>
    match lookup p fs with
    | Some d => (inl (mkInfo (basename p) d), fs)
    | None => (inr not_found, fs)
    end.

Definition fs_ReadDir (p : string) : State FS (list FileInfo + error) :=
  fun fs =>
    match lookup p fs with
    | Some true => (inl (children p fs), fs)
    | Some false => (inr not_a_directory, fs)
    | None => (inr not_found, fs)
    end.

Definition fs_Delete (p : string) : State FS (option error) :=
  fun fs =>
    match lookup p fs with
    | Some false =>
        if is_locked p fs then (Some refused, fs) else (None, erase p fs)
    | Some true => (Some is_a_directory, fs)
    | None => (Some not_found, fs)
    end.

Definition fs_Rmdir (p : string) : State FS (option error) :=
  fun fs =>
    match lookup p fs with
    | Some true =>
        match children p fs with
        | _ :: _ => (Some not_empty, fs)
        | [] =>
            if is_locked p fs then (Some refused, fs) else (None, erase p fs)
        end
    | Some false => (Some not_a_directory, fs)
    | None => (Some not_found, fs)
    end.

Definition parent_ok (p : string) (fs : FS) : bool :=
  match dirname p with
  | None => true
  | Some parent =>
      (parent =? "")%string ||
      match lookup parent fs with
      | Some true => true
      | _ => false
      end
  end.

Definition fs_Mkdir (p : string) : State FS (string * option error) :=
  fun fs =>
    match lookup p fs with
    | Some _ => ((p, Some exists_already), fs)
    | None =>
        if parent_ok p fs then ((p, None), create p true fs)
        else ((p, Some not_found), fs)
    end.

(** The server behind a goftp client. *)
Definition ftp : FTP.Client FS :=
  FTP.mkClient FS fs_Stat fs_ReadDir fs_Delete fs_Rmdir fs_Mkdir
    (fun fs => (None, fs)).

(** The server behind a pkg/sftp client.  The library reports an absent
    path as [os.ErrNotExist] and other failures as status errors; its
    [Remove] takes away a file or an empty directory. *)
Definition status_not_empty : error := StatusError "Directory is not empty".
Definition status_refused : error := StatusError "Permission denied".
Definition status_not_dir : error := StatusError "Not a directory".

Definition fs_RemoveDirectory (p : string) : State FS (option error) :=
  fun fs =>
    match lookup p fs with
    | Some true =>
        match children p fs with
        | _ :: _ => (Some status_not_empty, fs)
        | [] =>
            if is_locked p fs then (Some status_refused, fs)
            else (None, erase p fs)
        end
    | Some false => (Some status_not_dir, fs)
    | None => (Some (Sentinel_err ErrNotExist), fs)
    end.

Definition fs_Remove (p : string) : State FS (option error) :=
  fun fs =>
    match lookup p fs with
    | Some false =>
        if is_locked p fs then (Some status_refused, fs)
        else (None, erase p fs)
    | Some true => fs_RemoveDirectory p fs
    | None => (Some (Sentinel_err ErrNotExist), fs)
    end.

Definition fs_MkdirAll (p : string) : State FS (option error) :=
  fun fs =>
    match FTP.MkdirAll ftp p fs with
    | Some r => r
    | None => (Some (Sentinel_err ErrInvalid), fs)
    end.

Definition sftp : SFTP.Client FS :=
  SFTP.mkClient FS fs_Stat fs_ReadDir fs_Remove fs_RemoveDirectory
    (fun p fs => let '((_, e), fs') := fs_Mkdir p fs in (e, fs'))
    fs_MkdirAll
    (fun fs => (None, fs))
    (fun fs => (None, fs)).

(** Every separator of every entry's path ends the path of a directory of
    the tree: the entries form a tree. *)
Definition dir_at (fs : FS) (q : string) (i : nat) : bool :=
  implb (is_sep q i)
        (match lookup (slice q 0 i) fs with
         | Some true => true
         | _ => false
         end).

Definition wf (fs : FS) : bool :=
  forallb (fun e => forallb (dir_at fs (fst e))
                            (seq 0 (String.length (fst e))))
          (entries fs).

(** The same as a statement: an entry [a/b] has the directory [a] above
    it. *)
Definition is_tree (fs : FS) : Prop :=
  forall q k a b,
    In (q, k) (entries fs) -> q = a ++ "/" ++ b -> lookup a fs = Some true.

(** What another user of the same server may do between two calls. *)
Inductive Action : Type :=
| Idle
| Unlock (p : string)
| Lock (p : string)
| Vanish (p : string)
| Appear (p : string) (d : bool).

Definition act (a : Action) (fs : FS) : FS :=
  match a with
  | Idle => fs
  | Unlock p =>
      mkFS (entries fs) (filter (fun q => negb (q =? p)%string) (locked fs))
  | Lock p => mkFS (entries fs) (p :: locked fs)
  | Vanish p => prune p fs
  | Appear p d => create p d fs
  end.

(** The server with a schedule of foreign actions: before each call of the
    client the next action of the schedule, if any, takes place. *)
Definition World : Type := FS * list Action.

Definition interleave {A} (op : State FS A) : State World A :=
  fun w =>
    let '(fs, sched) := w in
    let fs1 := match sched with a :: _ => act a fs | [] => fs end in
    let '(r, fs2) := op fs1 in
    (r, (fs2, tl sched)).

Definition shared_ftp : FTP.Client World :=
  FTP.mkClient World
    (fun p => interleave (fs_Stat p))
    (fun p => interleave (fs_ReadDir p))
    (fun p => interleave (fs_Delete p))
    (fun p => interleave (fs_Rmdir p))
    (fun p => interleave (fs_Mkdir p))
    (interleave (fun fs => (None, fs))).

(** Package [os] over the same tree, as far as [Local.MakedirAll] needs
    it: [os.MkdirAll] is the algorithm [FTP.MkdirAll] mimics. *)
Definition os_MkdirAll (p : string) (perm : nat) : State FS (option error) :=
  fs_MkdirAll p.

Definition os : Local.OS FS :=
  Local.mkOS FS fs_Stat os_MkdirAll
    (fun p _ fs => let '((_, e), fs') := fs_Mkdir p fs in (e, fs'))
    (fun p => FTP.RemoveAny ftp p)
    (fun p fs => (None, prune p fs)).

End MemFS.

(* ================================================================== *)
(** ** Recording the calls made on a client *)

Module Log.

Inductive Call : Type :=
| CStat (p : string)
| CReadDir (p : string)
| CDelete (p : string)
| CRmdir (p : string)
| CMkdir (p : string)
| CClose.

Definition record {St A} (k : Call) (op : State St A)
    : State (St * list Call) A :=
  fun w =>
    let '(s, log) := w in
    let '(r, s') := op s in
    (r, (s', log ++ [k])%list).

(** The client [c] with every call appended to a log. *)
Definition logged {St} (c : FTP.Client St) : FTP.Client (St * list Call) :=
  FTP.mkClient (St * list Call)
    (fun p => record (CStat p) (FTP.c_Stat c p))
    (fun p => record (CReadDir p) (FTP.c_ReadDir c p))
    (fun p => record (CDelete p) (FTP.c_Delete c p))
    (fun p => record (CRmdir p) (FTP.c_Rmdir c p))
    (fun p => record (CMkdir p) (FTP.c_Mkdir c p))
    (record CClose (FTP.c_Close c)).

Definition mkdir_path (k : Call) : option string :=
  match k with
  | CMkdir p => Some p
  | _ => None
  end.

(** The paths [makeOneDirectory] was called with, in order. *)
Fixpoint mkdirs (log : list Call) : list string :=
  match log with
  | [] => []
  | k :: rest =>
      match mkdir_path k with
      | Some p => p :: mkdirs rest
      | None => mkdirs rest
      end
  end.

End Log.

(* ================================================================== *)
(** ** Trees and schedules used as test inputs *)

Module Scenario.
Import MemFS.

(** A directory whose only entry is a file the server refuses to remove. *)
Definition stuck : FS := mkFS [("d", true); ("d/f", false)] ["d/f"].

(** What the refusal of [d/f] becomes in [RemoveAny]. *)
Definition refusal : error :=
  Errorf_s_s_w "d/f" (Error refused) ErrInvalid.

(** What a failed [DeleteDir] of [d] becomes in [RemoveAny]. *)
Definition kept : error :=
  Errorf_not_empty "d" (Error refused) ErrPermission.

(** The same tree with [d] itself protected too, while another user
    releases [d/f] just before the seventh call. *)
Definition held : World :=
  (mkFS [("d", true); ("d/f", false)] ["d"; "d/f"],
   [Idle; Idle; Idle; Idle; Idle; Idle; Unlock "d/f"]).

(** [held] once the first three calls ([Stat d], [Rmdir d], [ReadDir d])
    have been made. *)
Definition held_listed : World :=
  (mkFS [("d", true); ("d/f", false)] ["d"; "d/f"],
   [Idle; Idle; Idle; Unlock "d/f"]).

(** Two refused files; [d/a] is released after the first pass over them. *)
Definition pair : World :=
  (mkFS [("d", true); ("d/a", false); ("d/b", false)] ["d/a"; "d/b"],
   [Idle; Idle; Idle; Idle; Unlock "d/a"]).

(** A tree that another user empties while it is being walked: [d/a]
    disappears after [d] was listed, [d/b] before it is listed. *)
Definition raced : World :=
  (mkFS [("d", true); ("d/a", false); ("d/b", true); ("d/b/x", false)] [],
   [Idle; Idle; Idle; Vanish "d/a"; Idle; Idle; Vanish "d/b"]).

(** The tree [d], [d/a]; [d] is taken away by someone else right after the
    first attempt to remove it, before it is listed. *)
Definition vanishing : World :=
  (mkFS [("d", true); ("d/a", false)] [], [Idle; Idle; Vanish "d"]).

(** A tree with one plain file. *)
Definition disk : FS := mkFS [("report.txt", false)] [].

(** A tree with a directory, a file and a subdirectory holding two files,
    next to an unrelated file. *)
Definition small : FS :=
  mkFS [("d", true); ("d/a", false); ("d/s", true); ("d/s/x", false);
        ("d/s/y", false); ("e", false)] [].

Definition empty : FS := mkFS [] [].

End Scenario.

(* ================================================================== *)
(** ** What a sequence of recorded calls may contain *)

Module Trace.
Import Log.

(** A call [RemoveAllRecursive root] may make: a [Stat], [ReadDir],
    [Delete] or [Rmdir] on [root] or on a path below it. *)
Definition removal_call (root : string) (k : Call) : bool :=
  match k with
  | CStat p | CReadDir p | CDelete p | CRmdir p => MemFS.under root p
  | CMkdir _ | CClose => false
  end.

(** A call [MkdirAll path] may make: a [Stat] or a [Mkdir] on a prefix of
    [path]. *)
Definition creation_call (path : string) (k : Call) : bool :=
  match k with
  | CStat p | CMkdir p => prefix p path
  | _ => false
  end.

(** The log of [w'] is the log of [w] followed by calls that all pass
    [ok]. *)
Definition continues {St : Type} (ok : Call -> bool)
    (w w' : St * list Call) : Prop :=
  exists calls, snd w' = (snd w ++ calls)%list /\ forallb ok calls = true.

End Trace.

(* ================================================================== *)
(** ** What removals confined to a subtree leave of a tree *)

Module Frame.
Import MemFS.

(** [fs'] is [fs] after removals at or below [root]: the same locks, no
    new entry, every path outside [root] as it was, and still a tree if
    [fs] was one. *)
Definition shrunk_under (root : string) (fs fs' : FS) : Prop :=
  locked fs' = locked fs /\
  incl (entries fs') (entries fs) /\
  (forall q, under root q = false -> lookup q fs' = lookup q fs) /\
  (is_tree fs -> is_tree fs').

End Frame.

(* ================================================================== *)
(** ** Paths made of names *)

Module Paths.
Import MemFS.

(** A name: not empty, no separator in it. *)
Definition is_name (n : string) : Prop := n <> "" /\ Contains n "/" = false.

(** A relative path [n1/n2/.../nk] of names. *)
Inductive relative_path : string -> Prop :=
| rp_name (n : string) : is_name n -> relative_path n
| rp_child (p n : string) :
    relative_path p -> is_name n -> relative_path (p ++ "/" ++ n).

(** Neither [path] nor a directory prefix of it is a plain file of
    [fs]. *)
Definition free_way (path : string) (fs : FS) : Prop :=
  lookup path fs <> Some false /\
  forall a b, path = a ++ "/" ++ b -> lookup a fs <> Some false.

End Paths.

(* ================================================================== *)
(** ** The rest of the FTP backend: [Ping] *)

Module FTPConn.

(** The raw connection of goftp: [OpenRawConn], and [SendCommand] and
    [Close] of the connection it returns. *)
Record Raw (St : Type) : Type := mkRaw {
  OpenRawConn : State St (option error);
  SendCommand : string -> State St (nat * string * option error);
  CloseRaw : State St (option error)
}.
Arguments OpenRawConn {St}.
Arguments SendCommand {St}.
Arguments CloseRaw {St}.

(** [fmt.Errorf("%d :%s: %w", code, msg, fmt.Errorf("unsupported server"))]:
    an error that wraps no sentinel. *)
Definition unsupported (code : nat) (msg : string) : error :=
  Library (DecimalString.NilZero.string_of_uint (Nat.to_uint code) ++ " :" ++ msg
           ++ ": unsupported server") None.

(** Lines 63-70: what [Ping] returns once the connection is open. *)
Definition feat_result (code : nat) (msg : string) (err : option error)
    : option error :=
  match err with
  | Some e => Some e
  | None =>
      if negb (code =? 211)%nat || negb (Contains msg "REST")
      then Some (unsupported code msg)
      else None
  end.

(** [Ping] (ftp.go, lines 56-71); the deferred [Close] runs after the
    result is fixed and its own result is dropped. *)
Definition Ping {St : Type} (c : Raw St) : State St (option error) :=
  fun s =>
    match OpenRawConn c s with
    | (Some err, s1) => (Some err, s1)
    | (None, s1) =>
        let '((code, msg, err), s2) := SendCommand c "FEAT" s1 in
        let '(_, s3) := CloseRaw c s2 in
        (feat_result code msg err, s3)
    end.

Inductive RawCall : Type :=
| POpen
| PSend (cmd : string)
| PClose.

Definition logged_raw {St : Type} (c : Raw St) : Raw (St * list RawCall) :=
  mkRaw (St * list RawCall)
    (fun w => let '(s, log) := w in
              let '(r, s') := OpenRawConn c s in
              (r, (s', log ++ [POpen])%list))
    (fun cmd w => let '(s, log) := w in
                  let '(r, s') := SendCommand c cmd s in
                  (r, (s', log ++ [PSend cmd])%list))
    (fun w => let '(s, log) := w in
              let '(r, s') := CloseRaw c s in
              (r, (s', log ++ [PClose])%list)).

End FTPConn.

(* ================================================================== *)
(** ** The rest of the SFTP backend: [NewClientSSH], [SaveFile] *)

Module SSH.

(** [Config] (sftp, lines 19-27). *)
Record Config : Type := mkConfig {
  Host : string;
  Port : string;
  AuthMethod : string;
  User : string;
  Password : string;
  PrivateKeyFile : string;
  Timeout : nat
}.

Definition with_Port (c : Config) (port : string) : Config :=
  mkConfig (Host c) port (AuthMethod c) (User c) (Password c)
    (PrivateKeyFile c) (Timeout c).

(** [l[i] = v], inside the bounds of [l]. *)
Fixpoint assign (l : list string) (i : nat) (v : string) : list string :=
  match l, i with
  | [], _ => []
  | _ :: rest, O => v :: rest
  | x :: rest, S i' => x :: assign rest i' v
  end.

(** The challenge function of lines 72-79:
    [answers := make([]string, len(questions))], then
    [for i := range answers { answers[i] = c.Password }]. *)
Definition answer_all (password : string) (user instruction : string)
    (questions : list string) (echos : list bool)
    : list string * option error :=
  let answers := repeat "" (List.length questions) in
  (fold_left (fun a i => assign a i password)
             (seq 0 (List.length answers)) answers,
   None).

(** [ssh.AuthMethod] values as the function builds them. *)
Inductive Auth (Signer : Type) : Type :=
| PublicKeys (signer : Signer)
| PasswordAuth (secret : string)
| KeyboardInteractive
    (challenge : string -> string -> list string -> list bool ->
                 list string * option error).
Arguments PublicKeys {Signer}.
Arguments PasswordAuth {Signer}.
Arguments KeyboardInteractive {Signer}.

(** [ssh.ClientConfig]; [HostKeyCallback] is always
    [ssh.InsecureIgnoreHostKey()]. *)
Record ClientConfig (Signer : Type) : Type := mkClientConfig {
  cc_User : string;
  cc_Auth : list (Auth Signer);
  cc_Timeout : nat
}.

(** [ioutil.ReadFile], [ssh.ParsePrivateKey], [ssh.Dial]. *)
Record Env (St Signer Conn : Type) : Type := mkEnv {
  ReadFile : string -> State St (string + error);
  ParsePrivateKey : string -> Signer + error;
  Dial : string -> string -> ClientConfig Signer -> State St (Conn + error)
}.
Arguments ReadFile {St Signer Conn}.
Arguments ParsePrivateKey {St Signer Conn}.
Arguments Dial {St Signer Conn}.

Section NewClient.
Context {St Signer Conn : Type} (env : Env St Signer Conn).

(** Lines 85-89: the default port is written into the caller's [Config]
    before dialling. *)
Definition dial (c : Config) (auth : list (Auth Signer))
    : State St ((Conn + error) * Config) :=
  fun s =>
    let c' := if (Port c =? "")%string then with_Port c "22" else c in
    let '(r, s') :=
      Dial env "tcp" (Host c' ++ ":" ++ Port c')
        (mkClientConfig Signer (User c) auth (Timeout c)) s in
    ((r, c'), s').

(** [NewClientSSH] (lines 45-90).  The [Config] is passed by pointer: the
    second component of the result is the [Config] as the call leaves
    it. *)
Definition NewClientSSH (c : Config)
    : State St ((Conn + error) * Config) :=
  fun s =>
    if (AuthMethod c =? "key")%string then
      match ReadFile env (PrivateKeyFile c) s with
      | (inr err, s1) => ((inr err, c), s1)
      | (inl privateKey, s1) =>
          match ParsePrivateKey env privateKey with
          | inr err => ((inr err, c), s1)
          | inl signer => dial c [PublicKeys signer] s1
          end
      end
    else if (AuthMethod c =? "password")%string then
      dial c [PasswordAuth (Password c)] s
    else if (AuthMethod c =? "keyboard")%string then
      dial c [KeyboardInteractive (answer_all (Password c))] s
    else
      ((inr (Library ("[" ++ AuthMethod c
                      ++ "] unsupported authentication method") None), c),
       s).

End NewClient.

(** An environment whose key files cannot be read and whose dial counts
    the connections made in its state. *)
Definition counting : Env nat unit unit :=
  mkEnv nat unit unit
    (fun _ s => (inr (Library "open: no such file" (Some ErrNotExist)), s))
    (fun _ => inl tt)
    (fun _ _ _ s => (inl tt, S s)).

End SSH.

Module SFTPFiles.

(** [os.O_RDWR], [os.O_TRUNC], [os.O_CREATE]; their union is the set. *)
Inductive Flag : Type := O_RDWR | O_TRUNC | O_CREATE.

(** The methods of [*sftp.Client] and [*sftp.File] that [SaveFile] calls;
    a file is known by a handle. *)
Record Client (St : Type) : Type := mkClient {
  c_Create : string -> State St (nat * option error);
  c_OpenFile : string -> list Flag -> State St (nat * option error);
  f_Write : nat -> list Byte.byte -> State St (nat * option error);
  f_Close : nat -> State St (option error)
}.
Arguments c_Create {St}.
Arguments c_OpenFile {St}.
Arguments f_Write {St}.
Arguments f_Close {St}.



Section Producer.
Context {St : Type} (c : Client St).



End Producer.



End SFTPFiles.

(** An operating system whose [Stat] is refused. *)
Module Refusing.

Definition denied : error := Library "stat: permission denied" (Some ErrPermission).

Definition os : Local.OS nat :=
  Local.mkOS nat
    (fun _ s => (inr denied, s))
    (fun _ _ s => (None, S s))
    (fun _ _ s => (None, S s))
    (fun _ s => (None, S s))
    (fun _ s => (None, S s)).

End Refusing.

(* ================================================================== *)
(** * Properties *)

(** ** Strings *)

Module StringFacts.

Lemma append_assoc (a b c : string) : (a ++ b) ++ c = a ++ (b ++ c).
Proof. induction a as [|x a IH]; simpl; [reflexivity | now rewrite IH]. Qed.

Lemma length_append (a b : string) :
  String.length (a ++ b) = String.length a + String.length b.
Proof. induction a as [|x a IH]; simpl; [reflexivity | now rewrite IH]. Qed.

Lemma prefix_append (a b : string) : prefix a (a ++ b) = true.
Proof.
  induction a as [|x a IH]; simpl.
  - destruct b; reflexivity.
  - destruct (ascii_dec x x) as [_|N]; [assumption | now elim N].
Qed.

Lemma prefix_inv (a q : string) :
  prefix a q = true -> exists b, q = a ++ b.
Proof.
  revert q. induction a as [|x a IH]; intros q H.
  - exists q. reflexivity.
  - destruct q as [|y q]; simpl in H; [discriminate|].
    destruct (ascii_dec x y) as [->|_]; [|discriminate].
    destruct (IH q H) as [b ->]. exists b. reflexivity.
Qed.

Lemma substring_full (s : string) : substring 0 (String.length s) s = s.
Proof. induction s as [|x s IH]; simpl; [reflexivity | now rewrite IH]. Qed.

Lemma substring_skip (a b : string) (m : nat) :
  substring (String.length a) m (a ++ b) = substring 0 m b.
Proof.
  induction a as [|x a IH]; simpl; [reflexivity | assumption].
Qed.

Lemma substring_take (a b : string) :
  substring 0 (String.length a) (a ++ b) = a.
Proof.
  induction a as [|x a IH]; simpl.
  - destruct b; reflexivity.
  - now rewrite IH.
Qed.

Lemma slice_suffix (a b : string) :
  slice (a ++ b) (String.length a) (String.length (a ++ b)) = b.
Proof.
  unfold slice. rewrite length_append.
  replace (String.length a + String.length b - String.length a)
    with (String.length b) by lia.
  rewrite substring_skip. apply substring_full.
Qed.

Lemma slice_prefix (a b : string) : slice (a ++ b) 0 (String.length a) = a.
Proof. unfold slice. rewrite Nat.sub_0_r. apply substring_take. Qed.

Lemma is_sep_append (a b : string) :
  is_sep (a ++ "/" ++ b) (String.length a) = true.
Proof.
  unfold is_sep. induction a as [|x a IH]; simpl; [reflexivity | assumption].
Qed.

Lemma Contains_prefix (s x : string) : prefix x s = true -> Contains s x = true.
Proof. intros H. destruct s; cbn [Contains]; rewrite H; reflexivity. Qed.

Lemma Contains_append_r (a b x : string) :
  Contains b x = true -> Contains (a ++ b) x = true.
Proof.
  intros H. induction a as [|y a IH]; simpl; [assumption|].
  rewrite IH. apply orb_true_r.
Qed.

Lemma Contains_middle (a b c : string) : Contains (a ++ b ++ c) b = true.
Proof. apply Contains_append_r, Contains_prefix, prefix_append. Qed.

Lemma prefix_sep_cons (x : ascii) (r : string) :
  prefix "/" (String x r) = Ascii.eqb x "/"%char.
Proof.
  cbn [prefix]. destruct (ascii_dec "/" x) as [<-|N].
  - destruct r; reflexivity.
  - symmetry. apply Ascii.eqb_neq. congruence.
Qed.

Lemma Contains_cons (x : ascii) (r sub : string) :
  Contains (String x r) sub = prefix sub (String x r) || Contains r sub.
Proof. reflexivity. Qed.

(** A string that has a separator splits at its first one. *)
Lemma first_sep (r : string) :
  Contains r "/" = true ->
  exists n r', r = n ++ "/" ++ r' /\ Contains n "/" = false.
Proof.
  induction r as [|x r IH]; intros H.
  - discriminate.
  - rewrite Contains_cons, prefix_sep_cons in H.
    destruct (Ascii.eqb x "/"%char) eqn:E.
    + apply Ascii.eqb_eq in E. subst x.
      exists "", r. split; reflexivity.
    + simpl in H. destruct (IH H) as (n & r' & -> & Hn).
      exists (String x n), r'. split; [reflexivity|].
      rewrite Contains_cons, prefix_sep_cons, E, Hn. reflexivity.
Qed.

Lemma append_nonempty (a b : string) : a ++ "/" ++ b <> "".
Proof. destruct a; discriminate. Qed.

Lemma append_longer (a b : string) : a ++ "/" ++ b <> a.
Proof.
  intros H. apply (f_equal String.length) in H.
  rewrite length_append in H. simpl in H. lia.
Qed.

End StringFacts.
Import StringFacts.

(* ================================================================== *)
(** ** [RemoveAny]: the classes of its errors *)

Lemma not_empty_tagged (a b : string) (w : Sentinel) :
  Contains (Error (Errorf_not_empty a b w)) "Directory is not empty" = true.
Proof.
  unfold Errorf_not_empty, Error.
  do 3 apply Contains_append_r.
  change (": Directory is not empty: " ++ Sentinel_text w)
    with (": " ++ "Directory is not empty" ++ ": " ++ Sentinel_text w).
  apply Contains_middle.
Qed.

(** C6.  [RemoveAny path] (removeEntry) on any client, in any state: when
    [Stat] fails the result is an error of class NotExist; when [Stat]
    reports a directory and [DeleteDir] fails, an error of class Permission
    whose text carries "Directory is not empty"; when [Stat] reports a file
    and [DeleteFile] fails, an error of class Invalid; and the result is nil
    in the two remaining cases only, those where the removal of the single
    entry succeeded.  Each error belongs to its class alone. *)
Theorem RemoveAny_classification {St : Type} (c : FTP.Client St)
    (path : string) (s : St) :
  match FTP.c_Stat c path s with
  | (inr _, s1) =>
      exists e, FTP.RemoveAny c path s = (Some e, s1) /\
                forall t, errors_Is e t = Sentinel_eqb ErrNotExist t
  | (inl dir, s1) =>
      if IsDir dir then
        match FTP.c_Rmdir c path s1 with
        | (Some _, s2) =>
            exists e, FTP.RemoveAny c path s = (Some e, s2) /\
                      (forall t, errors_Is e t = Sentinel_eqb ErrPermission t) /\
                      Contains (Error e) "Directory is not empty" = true
        | (None, s2) => FTP.RemoveAny c path s = (None, s2)
        end
      else
        match FTP.c_Delete c path s1 with
        | (Some _, s2) =>
            exists e, FTP.RemoveAny c path s = (Some e, s2) /\
                      forall t, errors_Is e t = Sentinel_eqb ErrInvalid t
        | (None, s2) => FTP.RemoveAny c path s = (None, s2)
        end
  end.
Proof.
  unfold FTP.RemoveAny, FTP.Stat, FTP.DeleteDir, FTP.DeleteFile.
  destruct (FTP.c_Stat c path s) as [[dir|err] s1].
  - destruct (IsDir dir).
    + destruct (FTP.c_Rmdir c path s1) as [[err|] s2]; [|reflexivity].
      eexists. split; [reflexivity|]. split; [reflexivity|].
      apply not_empty_tagged.
    + destruct (FTP.c_Delete c path s1) as [[err|] s2]; [|reflexivity].
      eexists. split; reflexivity.
  - eexists. split; reflexivity.
Qed.

(* ================================================================== *)
(** ** [RemoveAllRecursive]: the paths through the function *)

Section RemoveAllPaths.
Context {St : Type} (c : FTP.Client St).

Lemma RemoveAll_empty (fuel : nat) (s : St) :
  FTP.RemoveAllRecursive c fuel "" s = Some (None, s).
Proof. destruct fuel; reflexivity. Qed.

Lemma RemoveAll_removed (fuel : nat) (path : string) (s s1 : St) :
  path <> "" ->
  FTP.RemoveAny c path s = (None, s1) ->
  FTP.RemoveAllRecursive c fuel path s = Some (None, s1).
Proof.
  intros Hp H. apply String.eqb_neq in Hp.
  destruct fuel; simpl; rewrite Hp; unfold bind, lift; rewrite H; reflexivity.
Qed.

Lemma RemoveAll_absent (fuel : nat) (path : string) (s s1 : St) (e : error) :
  path <> "" ->
  FTP.RemoveAny c path s = (Some e, s1) ->
  errors_Is e ErrNotExist = true ->
  FTP.RemoveAllRecursive c fuel path s = Some (None, s1).
Proof.
  intros Hp H Hi. apply String.eqb_neq in Hp.
  destruct fuel; simpl; rewrite Hp; unfold bind, lift; rewrite H, Hi;
    reflexivity.
Qed.

Lemma RemoveAll_failed (fuel : nat) (path : string) (s s1 : St) (e : error) :
  path <> "" ->
  FTP.RemoveAny c path s = (Some e, s1) ->
  errors_Is e ErrNotExist = false ->
  Contains (Error e) "Directory is not empty" = false ->
  FTP.RemoveAllRecursive c fuel path s = Some (Some e, s1).
Proof.
  intros Hp H Hi Hc. apply String.eqb_neq in Hp.
  destruct fuel; simpl; rewrite Hp; unfold bind, lift; rewrite H, Hi, Hc;
    reflexivity.
Qed.

Lemma RemoveAll_descend (fuel : nat) (path : string) (s s1 : St) (e : error) :
  path <> "" ->
  FTP.RemoveAny c path s = (Some e, s1) ->
  errors_Is e ErrNotExist = false ->
  Contains (Error e) "Directory is not empty" = true ->
  FTP.RemoveAllRecursive c (S fuel) path s =
  match FTP.DIR_loop c fuel (FTP.RemoveAllRecursive c fuel) path s1 with
  | Some (Return r, s2) => Some (r, s2)
  | Some (_, s2) => Some (FTP.remove_directory c path s2)
  | None => None
  end.
Proof.
  intros Hp H Hi Hc. apply String.eqb_neq in Hp.
  simpl. rewrite Hp. unfold bind, lift. rewrite H, Hi, Hc. simpl.
  destruct (FTP.DIR_loop c fuel (FTP.RemoveAllRecursive c fuel) path s1)
    as [[[| |r] s2]|]; reflexivity.
Qed.

Lemma RemoveAll_descend_0 (path : string) (s s1 : St) (e : error) :
  path <> "" ->
  FTP.RemoveAny c path s = (Some e, s1) ->
  errors_Is e ErrNotExist = false ->
  Contains (Error e) "Directory is not empty" = true ->
  FTP.RemoveAllRecursive c 0 path s = None.
Proof.
  intros Hp H Hi Hc. apply String.eqb_neq in Hp.
  simpl. rewrite Hp. unfold bind, lift. rewrite H, Hi, Hc. reflexivity.
Qed.

Lemma DIR_loop_S (fuel : nat) (rec : string -> M St (option error))
    (path : string) (s : St) :
  FTP.DIR_loop c (S fuel) rec path s =
  match FTP.c_ReadDir c path s with
  | (inr err, s1) =>
      if errors_Is err ErrNotExist then Some (Return None, s1)
      else Some (Return (Some err), s1)
  | (inl infos, s1) =>
      if (List.length infos =? 0)%nat then Some (Break, s1)
      else
        match FTP.retry_loop c fuel rec path infos (List.length infos)
                [] None s1 with
        | Some (Break, s2) => FTP.DIR_loop c fuel rec path s2
        | Some (BreakDIR, s2) => Some (Break, s2)
        | Some (Return r, s2) => Some (Return r, s2)
        | None => None
        end
  end.
Proof.
  simpl. unfold bind, lift, FTP.ReadDir.
  destruct (FTP.c_ReadDir c path s) as [[infos|err] s1].
  - destruct (List.length infos =? 0)%nat; [reflexivity|].
    destruct (FTP.retry_loop c fuel rec path infos (List.length infos)
                [] None s1) as [[[| |r] s2]|]; reflexivity.
  - destruct (errors_Is err ErrNotExist); reflexivity.
Qed.

(** One pass of the inner loop that the dead tests of lines 260 and 279-290
    do not affect: the accumulated slice is at least as long as the
    listing. *)
Lemma retry_loop_S (fuel : nat) (rec : string -> M St (option error))
    (path : string) (infos : list FileInfo) (names : list string)
    (err : option error) (s : St) :
  infos <> [] ->
  FTP.retry_loop c (S fuel) rec path infos (List.length infos) names err s =
  match FTP.range_names rec path (names ++ map Name infos)%list err 0 s with
  | Some ((err', numErr), s1) =>
      if (numErr =? List.length infos)%nat
      then FTP.retry_loop c fuel rec path infos (List.length infos)
             (names ++ map Name infos)%list err' s1
      else Some (Break, s1)
  | None => None
  end.
Proof.
  intros Hne. simpl.
  assert (Hlen : List.length infos <=
                 List.length (names ++ map Name infos)%list).
  { rewrite length_app, length_map. lia. }
  assert (Hpos : 0 < List.length infos).
  { destruct infos; [congruence | simpl; lia]. }
  destruct (List.length (names ++ map Name infos)%list =? 0)%nat eqn:E0.
  { apply Nat.eqb_eq in E0. lia. }
  unfold bind.
  destruct (FTP.range_names rec path (names ++ map Name infos)%list err 0 s)
    as [[[err' numErr] s1]|]; [|reflexivity].
  destruct (numErr =? List.length infos)%nat; simpl; [|reflexivity].
  destruct (List.length (names ++ map Name infos)%list <? List.length infos)%nat
    eqn:E1; [|reflexivity].
  apply Nat.ltb_lt in E1. lia.
Qed.

End RemoveAllPaths.

(* ================================================================== *)
(** ** NotExist never leaves [RemoveAllRecursive] *)

Section NotExistAbsorbed.
Context {St : Type} (c : FTP.Client St).
Variable rec : string -> M St (option error).
Hypothesis rec_clean : forall p s r s',
  rec p s = Some (r, s') -> errors_Is_opt r ErrNotExist = false.

Lemma range_names_clean (path : string) (names : list string) :
  forall err numErr s err' numErr' s',
  errors_Is_opt err ErrNotExist = false ->
  FTP.range_names rec path names err numErr s = Some ((err', numErr'), s') ->
  errors_Is_opt err' ErrNotExist = false.
Proof.
  induction names as [|name rest IH]; intros err numErr s err' numErr' s' He H.
  - cbv [FTP.range_names ret] in H. inversion H; subst. assumption.
  - cbn [FTP.range_names] in H. unfold bind in H.
    destruct (rec (path ++ "/" ++ name) s) as [[err1 s1]|] eqn:E;
      [|discriminate].
    apply rec_clean in E.
    eapply IH; [|exact H]. destruct err; assumption.
Qed.

Lemma retry_loop_clean (path : string) (infos : list FileInfo)
    (entities : nat) (fuel : nat) :
  forall names err s r s',
  errors_Is_opt err ErrNotExist = false ->
  FTP.retry_loop c fuel rec path infos entities names err s
    = Some (Return r, s') ->
  errors_Is_opt r ErrNotExist = false.
Proof.
  induction fuel as [|fuel IH]; intros names err s r s' He H;
    [discriminate|].
  simpl in H.
  destruct (List.length (names ++ map Name infos)%list =? 0)%nat;
    [discriminate|].
  unfold bind in H.
  destruct (FTP.range_names rec path (names ++ map Name infos)%list err 0 s)
    as [[[err' numErr] s1]|] eqn:E; [|discriminate].
  apply range_names_clean in E; [|assumption].
  destruct (numErr =? entities)%nat; simpl in H; [|discriminate].
  destruct (List.length (names ++ map Name infos)%list <? entities)%nat.
  - unfold lift in H.
    destruct (FTP.RemoveAny c path s1) as [[e1|] s2].
    + destruct (errors_Is e1 ErrNotExist).
      * injection H as <- _. reflexivity.
      * destruct err' as [e'|].
        -- injection H as <- _. assumption.
        -- eapply IH; [|exact H]. reflexivity.
    + injection H as <- _. reflexivity.
  - eapply IH; [|exact H]. assumption.
Qed.

Lemma DIR_loop_clean (path : string) (fuel : nat) :
  forall s r s',
  FTP.DIR_loop c fuel rec path s = Some (Return r, s') ->
  errors_Is_opt r ErrNotExist = false.
Proof.
  induction fuel as [|fuel IH]; intros s r s' H; [discriminate|].
  rewrite DIR_loop_S in H.
  destruct (FTP.c_ReadDir c path s) as [[infos|err] s1].
  - destruct (List.length infos =? 0)%nat; [discriminate|].
    destruct (FTP.retry_loop c fuel rec path infos (List.length infos)
                [] None s1) as [[[| |r'] s2]|] eqn:E; try discriminate.
    + eapply IH; exact H.
    + injection H as <- _.
      eapply retry_loop_clean; [|exact E]. reflexivity.
  - destruct (errors_Is err ErrNotExist) eqn:Ei; injection H as <- _;
      [reflexivity | exact Ei].
Qed.

End NotExistAbsorbed.

Lemma remove_directory_clean {St : Type} (c : FTP.Client St)
    (path : string) (s : St) :
  errors_Is_opt (fst (FTP.remove_directory c path s)) ErrNotExist = false.
Proof.
  unfold FTP.remove_directory.
  destruct (FTP.RemoveAny c path s) as [[e1|] s1]; [|reflexivity].
  destruct (errors_Is e1 ErrNotExist) eqn:E; [reflexivity | exact E].
Qed.

Lemma RemoveAll_clean {St : Type} (c : FTP.Client St) (fuel : nat) :
  forall path s r s',
  FTP.RemoveAllRecursive c fuel path s = Some (r, s') ->
  errors_Is_opt r ErrNotExist = false.
Proof.
  induction fuel as [|fuel IH]; intros path s r s' H.
  - destruct (String.eqb_spec path "") as [->|Hp].
    { rewrite RemoveAll_empty in H. injection H as <- _. reflexivity. }
    destruct (FTP.RemoveAny c path s) as [[e|] s1] eqn:E.
    + destruct (errors_Is e ErrNotExist) eqn:Ei.
      { rewrite (RemoveAll_absent c _ _ _ _ _ Hp E Ei) in H.
        injection H as <- _. reflexivity. }
      destruct (Contains (Error e) "Directory is not empty") eqn:Ec.
      * rewrite (RemoveAll_descend_0 c _ _ _ _ Hp E Ei Ec) in H. discriminate.
      * rewrite (RemoveAll_failed c _ _ _ _ _ Hp E Ei Ec) in H.
        injection H as <- _. exact Ei.
    + rewrite (RemoveAll_removed c _ _ _ _ Hp E) in H.
      injection H as <- _. reflexivity.
  - destruct (String.eqb_spec path "") as [->|Hp].
    { rewrite RemoveAll_empty in H. injection H as <- _. reflexivity. }
    destruct (FTP.RemoveAny c path s) as [[e|] s1] eqn:E.
    + destruct (errors_Is e ErrNotExist) eqn:Ei.
      { rewrite (RemoveAll_absent c _ _ _ _ _ Hp E Ei) in H.
        injection H as <- _. reflexivity. }
      destruct (Contains (Error e) "Directory is not empty") eqn:Ec.
      * rewrite (RemoveAll_descend c _ _ _ _ _ Hp E Ei Ec) in H.
        destruct (FTP.DIR_loop c fuel (FTP.RemoveAllRecursive c fuel) path s1)
          as [[f s2]|] eqn:Ed; [|discriminate].
        assert (Hfinal : forall r0 s0,
                   Some (FTP.remove_directory c path s2) = Some (r0, s0) ->
                   errors_Is_opt r0 ErrNotExist = false).
        { intros r0 s0 H0. injection H0 as H0.
          pose proof (remove_directory_clean c path s2) as Hc.
          rewrite H0 in Hc. exact Hc. }
        destruct f as [| |r'].
        -- eapply Hfinal, H.
        -- eapply Hfinal, H.
        -- injection H as <- _.
           eapply (DIR_loop_clean c _ IH); exact Ed.
      * rewrite (RemoveAll_failed c _ _ _ _ _ Hp E Ei Ec) in H.
        injection H as <- _. exact Ei.
    + rewrite (RemoveAll_removed c _ _ _ _ Hp E) in H.
      injection H as <- _. reflexivity.
Qed.

(** C5.  On any client, with any fuel, for every path and state:
    (1) whatever [RemoveAllRecursive] returns is not an error of class
        NotExist;
    (2) when the first [RemoveAny] fails with NotExist (the path is not
        there) the call returns nil;
    (3) when a [ReadDir] of the loop fails with NotExist the loop returns
        nil, in any pass; so does the whole call when this happens to the
        first [ReadDir];
    (4) a child whose removal meets NotExist is neither recorded in [err]
        nor counted in [numErr];
    (5) when the last [RemoveAny] fails with NotExist the result is nil. *)
Theorem RemoveAll_absorbs_NotExist {St : Type} (c : FTP.Client St)
    (fuel : nat) (path : string) (s : St) :
  (forall r s', FTP.RemoveAllRecursive c fuel path s = Some (r, s') ->
                errors_Is_opt r ErrNotExist = false) /\
  (forall e s1, path <> "" ->
                FTP.RemoveAny c path s = (Some e, s1) ->
                errors_Is e ErrNotExist = true ->
                FTP.RemoveAllRecursive c fuel path s = Some (None, s1)) /\
  (forall rec e s1, FTP.c_ReadDir c path s = (inr e, s1) ->
                    errors_Is e ErrNotExist = true ->
                    FTP.DIR_loop c (S fuel) rec path s
                      = Some (Return None, s1)) /\
  (forall e0 s0 e s1,
      path <> "" ->
      FTP.RemoveAny c path s = (Some e0, s0) ->
      errors_Is e0 ErrNotExist = false ->
      Contains (Error e0) "Directory is not empty" = true ->
      FTP.c_ReadDir c path s0 = (inr e, s1) ->
      errors_Is e ErrNotExist = true ->
      FTP.RemoveAllRecursive c (S (S fuel)) path s = Some (None, s1)) /\
  (forall name rest err numErr e s1,
      FTP.RemoveAny c (path ++ "/" ++ name) s = (Some e, s1) ->
      errors_Is e ErrNotExist = true ->
      FTP.range_names (FTP.RemoveAllRecursive c fuel) path (name :: rest)
        err numErr s
      = FTP.range_names (FTP.RemoveAllRecursive c fuel) path rest
          err numErr s1) /\
  (forall e s1, FTP.RemoveAny c path s = (Some e, s1) ->
                errors_Is e ErrNotExist = true ->
                FTP.remove_directory c path s = (None, s1)).
Proof.
  split; [|split; [|split; [|split; [|split]]]].
  - intros r s'. apply RemoveAll_clean.
  - intros e s1 Hp E Ei. exact (RemoveAll_absent c _ _ _ _ _ Hp E Ei).
  - intros rec e s1 E Ei. rewrite DIR_loop_S, E, Ei. reflexivity.
  - intros e0 s0 e s1 Hp E0 Ei0 Ec0 E Ei.
    rewrite (RemoveAll_descend c _ _ _ _ _ Hp E0 Ei0 Ec0).
    rewrite DIR_loop_S, E, Ei. reflexivity.
  - intros name rest err numErr e s1 E Ei.
    cbn [FTP.range_names]. unfold bind.
    rewrite (RemoveAll_absent c fuel _ _ _ _ (append_nonempty _ _) E Ei).
    destruct err; reflexivity.
  - intros e s1 E Ei. unfold FTP.remove_directory. rewrite E, Ei.
    reflexivity.
Qed.

Lemma RemoveAll_absorbs_NotExist_witness :
  FTP.RemoveAllRecursive MemFS.ftp 0 "gone" Scenario.small
    = Some (None, Scenario.small) /\
  FTP.DIR_loop MemFS.ftp 1 (FTP.RemoveAllRecursive MemFS.ftp 0) "gone"
    Scenario.small = Some (Return None, Scenario.small) /\
  FTP.RemoveAllRecursive MemFS.shared_ftp 2 "d" Scenario.vanishing
    = Some (None, (Scenario.empty, [])) /\
  FTP.remove_directory MemFS.ftp "gone" Scenario.small
    = (None, Scenario.small).
Proof.
  pose proof (RemoveAll_absorbs_NotExist MemFS.ftp 0 "gone" Scenario.small)
    as (_ & H2 & H3 & _ & _ & H5).
  pose proof (RemoveAll_absorbs_NotExist MemFS.shared_ftp 0 "d"
                Scenario.vanishing) as (_ & _ & _ & H4 & _).
  split; [|split; [|split]].
  - apply (H2 (Errorf_s_s_w "gone" (Error MemFS.not_found) ErrNotExist));
      [discriminate | reflexivity | reflexivity].
  - apply (H3 _ MemFS.not_found); reflexivity.
  - apply (H4 (Errorf_not_empty "d" (Error MemFS.not_empty) ErrPermission)
              (fst Scenario.vanishing, [MemFS.Vanish "d"])
              MemFS.not_found);
      [discriminate | reflexivity..].
  - apply (H5 (Errorf_s_s_w "gone" (Error MemFS.not_found) ErrNotExist));
      reflexivity.
Defined.

(** The walk of [Scenario.raced]: entries listed and then removed by someone
    else do not make the call fail. *)
Example RemoveAll_raced :
  FTP.RemoveAllRecursive MemFS.shared_ftp 4 "d" Scenario.raced
  = Some (None, (Scenario.empty, [])).
Proof. reflexivity. Qed.

(* ================================================================== *)
(** ** The empty path *)

(** C9.  [RemoveAllRecursive ""] returns nil, with any fuel, on any client
    and in any state, and calls nothing: on the FTP client with its calls
    recorded the log is returned as it was, and on both backends the state
    of the client is returned as it was. *)
Theorem RemoveAll_empty_path_no_calls {St : Type} (c : FTP.Client St)
    (c' : SFTP.Client St) (fuel : nat) (s : St) (log : list Log.Call) :
  FTP.RemoveAllRecursive (Log.logged c) fuel "" (s, log)
    = Some (None, (s, log)) /\
  FTP.RemoveAllRecursive c fuel "" s = Some (None, s) /\
  SFTP.RemoveAllRecursive c' fuel "" s = Some (None, s).
Proof. repeat split; destruct fuel; reflexivity. Qed.

(* ================================================================== *)
(** ** [Close] of the SFTP backend *)

(** C10.  [sftpProducer.Close] returns exactly what closing the SSH client
    returns, in the state the SFTP client's [Close] left; the error of the
    SFTP client's [Close] is dropped.  In particular the result is nil
    whenever the SSH client closes cleanly. *)
Theorem Close_reports_ssh_only {St : Type} (c : SFTP.Client St) (s : St) :
  SFTP.Close c s = SFTP.ssh_Close c (snd (SFTP.c_Close c s)).
Proof.
  unfold SFTP.Close.
  destruct (SFTP.c_Close c s) as [err s1]. simpl.
  destruct (SFTP.ssh_Close c s1) as [err' s2]. reflexivity.
Qed.

(* ================================================================== *)
(** ** [MkdirAll] *)

(** The FTP [MkdirAll] on an existing plain file: one [Stat], the error
    ENOTDIR, nothing else called. *)
Lemma ftp_MkdirAll_plain_file {St : Type} (c : FTP.Client St) (fuel : nat)
    (path : string) (s s1 : St) (dir : FileInfo) (log : list Log.Call) :
  FTP.c_Stat c path s = (inl dir, s1) ->
  IsDir dir = false ->
  FTP.MkdirAll_fuel (Log.logged c) fuel path (s, log)
  = Some (Some (PathError "mkdir" path ENOTDIR),
          (s1, (log ++ [Log.CStat path])%list)).
Proof.
  intros E Hd.
  destruct fuel; simpl; unfold FTP.Stat; simpl; unfold Log.record;
    rewrite E, Hd; reflexivity.
Qed.

Lemma ftp_MkdirAll_plain_file_server (path : string) (fs : MemFS.FS) :
  MemFS.lookup path fs = Some false ->
  FTP.MkdirAll MemFS.ftp path fs
  = Some (Some (PathError "mkdir" path ENOTDIR), fs).
Proof.
  intros E. unfold FTP.MkdirAll.
  destruct (String.length path); simpl; unfold FTP.Stat; simpl;
    unfold MemFS.fs_Stat; rewrite E; reflexivity.
Qed.

(** The local [MakedirAll] whenever [os.Stat] succeeds: nil. *)
Lemma local_MakedirAll_existing {St : Type} (os : Local.OS St)
    (path : string) (s s1 : St) (info : FileInfo) :
  Local.os_Stat os path s = (inl info, s1) ->
  Local.MakedirAll os path s = (None, s1).
Proof. intros E. unfold Local.MakedirAll. rewrite E. reflexivity. Qed.

(** C7.  The local backend on a tree where [report.txt] is a plain file:
    [MakedirAll "report.txt"] leaves the tree as it is and returns nil, not
    an error, while the FTP backend returns ENOTDIR on the same tree. *)
Theorem local_MakedirAll_plain_file_is_nil :
  MemFS.lookup "report.txt" Scenario.disk = Some false /\
  Local.MakedirAll MemFS.os "report.txt" Scenario.disk
    = (None, Scenario.disk) /\
  FTP.MkdirAll MemFS.ftp "report.txt" Scenario.disk
    = Some (Some (PathError "mkdir" "report.txt" ENOTDIR), Scenario.disk).
Proof. repeat split. Qed.

Lemma lookup_create (q p : string) (d : bool) (fs : MemFS.FS) :
  MemFS.lookup q (MemFS.create p d fs) =
  match MemFS.lookup q fs with
  | Some x => Some x
  | None => if (p =? q)%string then Some d else None
  end.
Proof.
  unfold MemFS.lookup, MemFS.create. cbn [MemFS.entries].
  induction (MemFS.entries fs) as [|[k v] l IH]; cbn [find app].
  - unfold MemFS.key_is. cbn [fst].
    destruct (p =? q)%string; reflexivity.
  - destruct (MemFS.key_is q (k, v)); [reflexivity | exact IH].
Qed.

(** C8.  On a server where none of [a], [a/b], [a/b/c] exists,
    [MkdirAll "a/b/c"] returns nil after the calls [Stat a/b/c], [Stat a/b],
    [Stat a], [Mkdir a], [Mkdir a/b], [Mkdir a/b/c], in this order: the
    directories are made parent first, each by one [Mkdir], and the tree
    gains exactly these three directories.  A second call right after
    returns nil after a single [Stat] and leaves the tree as it is. *)
Theorem MkdirAll_creates_parents_first (fs : MemFS.FS) :
  MemFS.lookup "a" fs = None ->
  MemFS.lookup "a/b" fs = None ->
  MemFS.lookup "a/b/c" fs = None ->
  let fs3 := MemFS.create "a/b/c" true
               (MemFS.create "a/b" true (MemFS.create "a" true fs)) in
  let log := [Log.CStat "a/b/c"; Log.CStat "a/b"; Log.CStat "a";
              Log.CMkdir "a"; Log.CMkdir "a/b"; Log.CMkdir "a/b/c"] in
  FTP.MkdirAll (Log.logged MemFS.ftp) "a/b/c" (fs, [])
    = Some (None, (fs3, log)) /\
  Log.mkdirs log = ["a"; "a/b"; "a/b/c"] /\
  FTP.MkdirAll (Log.logged MemFS.ftp) "a/b/c" (fs3, [])
    = Some (None, (fs3, [Log.CStat "a/b/c"])).
Proof.
  intros Ha Hb Hc fs3 log. subst fs3 log.
  unfold FTP.MkdirAll.
  split; [|split]; [| reflexivity |];
    repeat (progress (cbn;
      unfold Log.record, FTP.MakeDir_checked, FTP.MakeDir, FTP.Stat,
        MemFS.fs_Stat, MemFS.fs_Mkdir, MemFS.parent_ok;
      cbn; rewrite ?lookup_create, ?Ha, ?Hb, ?Hc; cbn));
    reflexivity.
Qed.

Lemma MkdirAll_creates_parents_first_witness :
  FTP.MkdirAll (Log.logged MemFS.ftp) "a/b/c" (Scenario.empty, [])
  = Some (None,
          (MemFS.mkFS [("a", true); ("a/b", true); ("a/b/c", true)] [],
           [Log.CStat "a/b/c"; Log.CStat "a/b"; Log.CStat "a";
            Log.CMkdir "a"; Log.CMkdir "a/b"; Log.CMkdir "a/b/c"])).
Proof.
  apply (MkdirAll_creates_parents_first Scenario.empty); reflexivity.
Defined.

(** [MkdirAll] always returns: the parent handed to the recursive call is
    strictly shorter than the path. *)
Lemma skip_trailing_le (path : string) (i : nat) :
  FTP.skip_trailing path i <= i.
Proof.
  induction i as [|i IH]; simpl; [lia|].
  destruct (is_sep path i); lia.
Qed.

Lemma scan_element_le (path : string) (j : nat) :
  FTP.scan_element path j <= j.
Proof.
  induction j as [|j IH]; simpl; [lia|].
  destruct (is_sep path j); lia.
Qed.

Lemma substring_length_le (s : string) :
  forall n m, String.length (substring n m s) <= m.
Proof.
  induction s as [|x s IH]; intros n m.
  - destruct n, m; simpl; lia.
  - destruct n as [|n].
    + destruct m as [|m]; simpl; [lia|]. specialize (IH 0 m). lia.
    + simpl. apply IH.
Qed.

Lemma MkdirAll_fuel_returns {St : Type} (c : FTP.Client St) (fuel : nat) :
  forall path s,
  String.length path <= fuel ->
  FTP.MkdirAll_fuel c fuel path s <> None.
Proof.
  induction fuel as [|fuel IH]; intros path s Hlen.
  - simpl. destruct (FTP.Stat c path s) as [[dir|err] s1].
    + destruct (IsDir dir); discriminate.
    + destruct path; [|simpl in Hlen; lia]. simpl. discriminate.
  - simpl. destruct (FTP.Stat c path s) as [[dir|err] s1].
    + destruct (IsDir dir); discriminate.
    + set (i := FTP.skip_trailing path (String.length path)).
      set (j := FTP.scan_element path i).
      destruct (1 <? j)%nat eqn:Ej; [|discriminate].
      apply Nat.ltb_lt in Ej.
      assert (Hj : j <= String.length path).
      { pose proof (scan_element_le path i).
        pose proof (skip_trailing_le path (String.length path)).
        subst i j. lia. }
      assert (Hp : String.length (slice path 0 (j - 1)) <= fuel).
      { unfold slice. pose proof (substring_length_le path 0 (j - 1 - 0)).
        lia. }
      specialize (IH (slice path 0 (j - 1)) s1 Hp).
      destruct (FTP.MkdirAll_fuel c fuel (slice path 0 (j - 1)) s1)
        as [[[e|] s2]|]; [discriminate | discriminate | contradiction].
Qed.

Lemma MkdirAll_returns {St : Type} (c : FTP.Client St) (path : string)
    (s : St) :
  exists r s', FTP.MkdirAll c path s = Some (r, s').
Proof.
  pose proof (MkdirAll_fuel_returns c (String.length path) path s
                (Nat.le_refl _)) as H.
  unfold FTP.MkdirAll.
  destruct (FTP.MkdirAll_fuel c (String.length path) path s) as [[r s']|];
    [eauto | contradiction].
Qed.

(* ================================================================== *)
(** ** A file the server refuses to remove *)

Lemma stuck_child (n : nat) :
  FTP.RemoveAllRecursive MemFS.ftp n "d/f" Scenario.stuck
  = Some (Some Scenario.refusal, Scenario.stuck).
Proof. destruct n; reflexivity. Qed.

Ltac stuck_step :=
  cbn [FTP.retry_loop FTP.range_names app map Name List.length
       Nat.eqb Nat.ltb Nat.leb negb append];
  unfold bind, ret; rewrite ?stuck_child; cbn beta iota.

Lemma stuck_retry (m n : nat) :
  FTP.retry_loop MemFS.ftp m (FTP.RemoveAllRecursive MemFS.ftp n) "d"
    [mkInfo "f" false] 1 [] None Scenario.stuck = None \/
  FTP.retry_loop MemFS.ftp m (FTP.RemoveAllRecursive MemFS.ftp n) "d"
    [mkInfo "f" false] 1 [] None Scenario.stuck
  = Some (Break, Scenario.stuck).
Proof.
  destruct m as [|[|m]].
  - left. reflexivity.
  - left. do 2 stuck_step. reflexivity.
  - right. do 3 stuck_step. reflexivity.
Qed.

Lemma stuck_DIR_loop (m n : nat) :
  FTP.DIR_loop MemFS.ftp m (FTP.RemoveAllRecursive MemFS.ftp n) "d"
    Scenario.stuck = None.
Proof.
  induction m as [|m IH]; [reflexivity|].
  rewrite DIR_loop_S.
  change (FTP.c_ReadDir MemFS.ftp "d" Scenario.stuck)
    with (@inl (list FileInfo) error [mkInfo "f" false], Scenario.stuck).
  cbn [List.length Nat.eqb].
  destruct (stuck_retry m n) as [-> | ->]; [reflexivity | exact IH].
Qed.

Lemma ftp_RemoveAll_unremovable_leaf (fuel : nat) :
  FTP.RemoveAllRecursive MemFS.ftp fuel "d" Scenario.stuck = None.
Proof.
  destruct fuel as [|fuel]; [reflexivity|].
  rewrite (RemoveAll_descend MemFS.ftp fuel "d" Scenario.stuck Scenario.stuck
             (Errorf_not_empty "d" (Error MemFS.not_empty) ErrPermission));
    [| discriminate | reflexivity | reflexivity | reflexivity].
  rewrite stuck_DIR_loop. reflexivity.
Qed.

(* ================================================================== *)
(** ** Which error comes back *)

Section FirstError.
Context {St : Type} (rec : string -> M St (option error)).

(** Lines 266-268: once [err] is set, no later child changes it. *)
Lemma range_names_keeps_first (path : string) (names : list string) :
  forall e numErr s err' numErr' s',
  FTP.range_names rec path names (Some e) numErr s
    = Some ((err', numErr'), s') ->
  err' = Some e.
Proof.
  induction names as [|name rest IH]; intros e numErr s err' numErr' s' H.
  - cbv [FTP.range_names ret] in H. congruence.
  - cbn [FTP.range_names] in H. unfold bind in H.
    destruct (rec (path ++ "/" ++ name) s) as [[err1 s1]|]; [|discriminate].
    eapply IH, H.
Qed.

(** Lines 269-271: [numErr] grows by one for each failed child. *)
Lemma range_names_counts (path : string) (names : list string) :
  forall err numErr s err' numErr' s',
  FTP.range_names rec path names err numErr s
    = Some ((err', numErr'), s') ->
  numErr <= numErr' <= numErr + List.length names.
Proof.
  induction names as [|name rest IH]; intros err numErr s err' numErr' s' H.
  - cbv [FTP.range_names ret] in H. inversion H; subst. simpl. lia.
  - cbn [FTP.range_names] in H. unfold bind in H.
    destruct (rec (path ++ "/" ++ name) s) as [[err1 s1]|]; [|discriminate].
    apply IH in H. cbn [List.length]. destruct err1; lia.
Qed.

End FirstError.

(** C3.  On [Scenario.held] the first pass over the listing of [d] records
    the refusal of [d/f] in [err]; the file is released, the next passes
    remove it, the listing becomes empty, and the last [RemoveAny "d"]
    fails.  The call returns the error of that last removal, not the
    recorded one. *)
Theorem RemoveAll_returns_last_removal_error :
  FTP.range_names (FTP.RemoveAllRecursive MemFS.shared_ftp 0) "d" ["f"]
    None 0 Scenario.held_listed
  = Some ((Some Scenario.refusal, 1),
          (fst Scenario.held, [MemFS.Idle; MemFS.Unlock "d/f"])) /\
  FTP.RemoveAllRecursive MemFS.shared_ftp 4 "d" Scenario.held
  = Some (Some Scenario.kept, (MemFS.mkFS [("d", true)] ["d"], [])) /\
  Scenario.kept <> Scenario.refusal.
Proof. split; [|split]; [reflexivity | reflexivity | discriminate]. Qed.

(* ================================================================== *)
(** ** The server: paths, lookups, pruning *)

Module MemFSFacts.
Import MemFS.

Lemma filter_id {A} (f : A -> bool) (l : list A) :
  (forall x, In x l -> f x = true) -> filter f l = l.
Proof.
  induction l as [|x l IH]; intros H; simpl; [reflexivity|].
  rewrite (H x (or_introl eq_refl)). f_equal.
  apply IH. intros y Hy. apply H. now right.
Qed.

Lemma filter_filter {A} (f g : A -> bool) (l : list A) :
  filter f (filter g l) = filter (fun x => g x && f x) l.
Proof.
  induction l as [|x l IH]; simpl; [reflexivity|].
  destruct (g x); simpl; [|exact IH].
  destruct (f x); [f_equal|]; exact IH.
Qed.

Lemma filter_length_mono {A} (f g : A -> bool) (l : list A) :
  (forall x, In x l -> f x = true -> g x = true) ->
  List.length (filter f l) <= List.length (filter g l).
Proof.
  induction l as [|x l IH]; intros H; simpl; [lia|].
  assert (IH' := IH (fun y Hy => H y (or_intror Hy))).
  destruct (f x) eqn:Ef.
  - rewrite (H x (or_introl eq_refl) Ef). simpl. lia.
  - destruct (g x); simpl; lia.
Qed.

Lemma filter_length_lt {A} (f g : A -> bool) (l : list A) (x : A) :
  (forall y, In y l -> f y = true -> g y = true) ->
  In x l -> g x = true -> f x = false ->
  List.length (filter f l) < List.length (filter g l).
Proof.
  induction l as [|y l IH]; intros H Hin Hg Hf; [contradiction|].
  simpl. destruct Hin as [->|Hin].
  - rewrite Hf, Hg. simpl.
    pose proof (filter_length_mono f g l (fun z Hz => H z (or_intror Hz))).
    lia.
  - assert (IH' := IH (fun z Hz => H z (or_intror Hz)) Hin Hg Hf).
    destruct (f y) eqn:Ef.
    + rewrite (H y (or_introl eq_refl) Ef). simpl. lia.
    + destruct (g y); simpl; lia.
Qed.

Lemma find_filter {A} (f g : A -> bool) (l : list A) :
  (forall x, In x l -> f x = true -> g x = true) ->
  find f (filter g l) = find f l.
Proof.
  induction l as [|x l IH]; intros H; simpl; [reflexivity|].
  assert (IH' := IH (fun y Hy => H y (or_intror Hy))).
  destruct (f x) eqn:Ef.
  - rewrite (H x (or_introl eq_refl) Ef). simpl. rewrite Ef. reflexivity.
  - destruct (g x); simpl; [rewrite Ef|]; exact IH'.
Qed.

(** *** [under] *)

Lemma under_refl (p : string) : under p p = true.
Proof. unfold under. rewrite String.eqb_refl. reflexivity. Qed.

Lemma under_cases (p q : string) :
  under p q = true <-> q = p \/ exists b, q = p ++ "/" ++ b.
Proof.
  unfold under. rewrite orb_true_iff, String.eqb_eq. split.
  - intros [H|H]; [now left | right].
    apply prefix_inv in H. destruct H as [b ->].
    exists b. apply append_assoc.
  - intros [H|[b ->]]; [now left | right].
    rewrite <- append_assoc. apply prefix_append.
Qed.

(** Below a child of [p] is below [p], and is not [p]. *)
Lemma under_child (p n q : string) :
  under (p ++ "/" ++ n) q = true -> under p q = true /\ q <> p.
Proof.
  rewrite !under_cases. intros [->|[b ->]].
  - split; [right; eauto | apply append_longer].
  - split.
    + right. exists (n ++ "/" ++ b).
      rewrite !append_assoc. reflexivity.
    + rewrite !append_assoc. apply append_longer.
Qed.

(** Below [a] is whatever extends a path below [a]. *)
Lemma under_extend (r a b : string) :
  under r a = true -> under r (a ++ "/" ++ b) = true.
Proof.
  rewrite !under_cases. intros [->|[x ->]]; right.
  - eauto.
  - exists (x ++ "/" ++ b). rewrite !append_assoc. reflexivity.
Qed.

(** *** [lookup] *)

Lemma lookup_In (p : string) (d : bool) (fs : FS) :
  lookup p fs = Some d -> In (p, d) (entries fs).
Proof.
  unfold lookup. destruct (find (key_is p) (entries fs)) as [[k v]|] eqn:E;
    [|discriminate].
  intros H. injection H as ->.
  apply find_some in E. destruct E as [Hin Hk].
  unfold key_is in Hk. cbn [fst] in Hk. apply String.eqb_eq in Hk.
  now subst k.
Qed.

Lemma In_lookup (p : string) (d : bool) (fs : FS) :
  In (p, d) (entries fs) -> exists d', lookup p fs = Some d'.
Proof.
  intros Hin. unfold lookup.
  destruct (find (key_is p) (entries fs)) as [[k v]|] eqn:E; [eauto|].
  apply (find_none _ _ E) in Hin.
  unfold key_is in Hin. cbn [fst] in Hin.
  rewrite String.eqb_refl in Hin. discriminate.
Qed.

Lemma lookup_prune (r q : string) (fs : FS) :
  under r q = false -> lookup q (prune r fs) = lookup q fs.
Proof.
  intros H. unfold lookup, prune. cbn [entries].
  rewrite find_filter; [reflexivity|].
  intros [k v] _ Hk. unfold key_is in Hk. cbn [fst] in *.
  apply String.eqb_eq in Hk. subst k. rewrite H. reflexivity.
Qed.

Lemma lookup_pruned (r q : string) (fs : FS) :
  under r q = true -> lookup q (prune r fs) = None.
Proof.
  intros H. destruct (lookup q (prune r fs)) as [d|] eqn:E; [|reflexivity].
  apply lookup_In in E. unfold prune in E. cbn [entries] in E.
  apply filter_In in E. destruct E as [_ E]. cbn [fst] in E.
  rewrite H in E. discriminate.
Qed.

(** *** Trees *)

Lemma wf_is_tree (fs : FS) : wf fs = true -> is_tree fs.
Proof.
  intros Hwf q k a b Hin ->. unfold wf in Hwf.
  rewrite forallb_forall in Hwf. specialize (Hwf _ Hin). cbn [fst] in Hwf.
  rewrite forallb_forall in Hwf.
  specialize (Hwf (String.length a)).
  assert (Hi : In (String.length a)
                  (seq 0 (String.length (a ++ "/" ++ b)))).
  { apply in_seq. rewrite length_append. simpl. lia. }
  specialize (Hwf Hi). unfold dir_at in Hwf.
  rewrite is_sep_append, slice_prefix in Hwf. simpl in Hwf.
  destruct (lookup a fs) as [[|]|]; [reflexivity | discriminate..].
Qed.

Lemma is_tree_prune (r : string) (fs : FS) :
  is_tree fs -> is_tree (prune r fs).
Proof.
  intros Ht q k a b Hin ->. unfold prune in Hin. cbn [entries] in Hin.
  apply filter_In in Hin. destruct Hin as [Hin Hu]. cbn [fst] in Hu.
  rewrite lookup_prune.
  - eapply Ht; [exact Hin | reflexivity].
  - destruct (under r a) eqn:E; [|reflexivity].
    rewrite (under_extend r a b E) in Hu. discriminate.
Qed.

(** *** Children *)

Lemma child_name_spec (p q n : string) :
  child_name p q = Some n <-> q = p ++ "/" ++ n /\ Contains n "/" = false.
Proof.
  unfold child_name. split.
  - destruct (prefix (p ++ "/") q) eqn:E; [|discriminate].
    apply prefix_inv in E. destruct E as [b ->].
    replace (String.length p + 1) with (String.length (p ++ "/"))
      by (rewrite length_append; reflexivity).
    rewrite slice_suffix.
    destruct (Contains b "/") eqn:Ec; [discriminate|].
    intros H. injection H as <-. split; [apply append_assoc | exact Ec].
  - intros [-> Hc]. rewrite <- append_assoc, prefix_append.
    replace (String.length p + 1) with (String.length (p ++ "/"))
      by (rewrite length_append; reflexivity).
    rewrite slice_suffix, Hc. reflexivity.
Qed.

Lemma In_children (p : string) (fs : FS) (i : FileInfo) :
  In i (children p fs) <->
  exists q, In (q, IsDir i) (entries fs) /\ child_name p q = Some (Name i).
Proof.
  unfold children. rewrite in_flat_map. split.
  - intros [[q k] [Hin Hi]]. cbn [fst snd] in Hi.
    destruct (child_name p q) as [n|] eqn:E; [|contradiction].
    destruct Hi as [<-|[]]. exists q. split; assumption.
  - intros [q [Hin Hc]]. exists (q, IsDir i). split; [assumption|].
    cbn [fst snd]. rewrite Hc. left. destruct i; reflexivity.
Qed.

(** In a tree every entry strictly below [p] is below one of the children
    [ReadDir p] lists. *)
Lemma below_some_child (p q : string) (k : bool) (fs : FS) :
  is_tree fs ->
  In (q, k) (entries fs) ->
  under p q = true -> q <> p ->
  exists i, In i (children p fs) /\ under (p ++ "/" ++ Name i) q = true.
Proof.
  intros Ht Hin Hu Hne.
  apply under_cases in Hu. destruct Hu as [->|[r ->]]; [contradiction|].
  destruct (Contains r "/") eqn:Ec.
  - apply first_sep in Ec. destruct Ec as (n & r' & -> & Hn).
    assert (Hd : lookup (p ++ "/" ++ n) fs = Some true).
    { eapply Ht; [exact Hin|]. rewrite !append_assoc. reflexivity. }
    apply lookup_In in Hd.
    exists (mkInfo n true). split.
    + apply In_children. exists (p ++ "/" ++ n). split; [exact Hd|].
      apply child_name_spec. split; [reflexivity | exact Hn].
    + cbn [Name]. apply under_cases. right. exists r'.
      rewrite !append_assoc. reflexivity.
  - exists (mkInfo r k). split.
    + apply In_children. exists (p ++ "/" ++ r). split; [exact Hin|].
      apply child_name_spec. split; [reflexivity | exact Ec].
    + apply under_refl.
Qed.

(** A listed child is an entry of the tree. *)
Lemma children_entries (p : string) (fs : FS) (i : FileInfo) :
  In i (children p fs) -> In (p ++ "/" ++ Name i, IsDir i) (entries fs).
Proof.
  intros H. apply In_children in H. destruct H as [q [Hin Hc]].
  apply child_name_spec in Hc. destruct Hc as [-> _]. exact Hin.
Qed.

(** *** Counting *)

Lemma count_prune_le (q r : string) (fs : FS) :
  count_under q (prune r fs) <= count_under q fs.
Proof.
  unfold count_under, prune. cbn [entries]. rewrite filter_filter.
  apply filter_length_mono. intros x _ H.
  apply andb_true_iff in H. tauto.
Qed.

Lemma count_child_lt (p n : string) (d : bool) (fs : FS) :
  lookup p fs = Some d ->
  count_under (p ++ "/" ++ n) fs < count_under p fs.
Proof.
  intros H. apply lookup_In in H. unfold count_under.
  apply (filter_length_lt _ _ _ (p, d)).
  - intros [k v] _ Hu. cbn [fst] in *. now apply under_child in Hu.
  - exact H.
  - apply under_refl.
  - cbn [fst]. destruct (under (p ++ "/" ++ n) p) eqn:E; [|reflexivity].
    apply under_child in E. destruct E as [_ E]. now elim E.
Qed.

(** *** Pruning the listed children one after the other *)

Lemma prune_children_entries (p : string) (names : list string) :
  forall fs,
  entries (fold_left (fun fs n => prune (p ++ "/" ++ n) fs) names fs) =
  filter (fun e => forallb (fun n => negb (under (p ++ "/" ++ n) (fst e)))
                           names)
         (entries fs).
Proof.
  induction names as [|n names IH]; intros fs; cbn [fold_left forallb].
  - symmetry. apply filter_id. reflexivity.
  - rewrite IH. unfold prune. cbn [entries]. apply filter_filter.
Qed.

Lemma prune_children_locked (p : string) (names : list string) :
  forall fs,
  locked (fold_left (fun fs n => prune (p ++ "/" ++ n) fs) names fs)
  = locked fs.
Proof.
  induction names as [|n names IH]; intros fs; cbn [fold_left];
    [reflexivity|].
  rewrite IH. reflexivity.
Qed.

Lemma prune_children_lookup (p : string) (names : list string) :
  forall fs,
  lookup p (fold_left (fun fs n => prune (p ++ "/" ++ n) fs) names fs)
  = lookup p fs.
Proof.
  induction names as [|n names IH]; intros fs; cbn [fold_left];
    [reflexivity|].
  rewrite IH. apply lookup_prune.
  destruct (under (p ++ "/" ++ n) p) eqn:E; [|reflexivity].
  apply under_child in E. destruct E as [_ E]. now elim E.
Qed.

End MemFSFacts.

(* ================================================================== *)
(** ** [RemoveAllRecursive] on a tree whose entries can all be removed *)

Module RemoveTree.
Import MemFS MemFSFacts.

Lemma is_locked_none (p : string) (fs : FS) :
  locked fs = [] -> is_locked p fs = false.
Proof. unfold is_locked. intros ->. reflexivity. Qed.

Lemma RemoveAny_absent (p : string) (fs : FS) :
  lookup p fs = None ->
  FTP.RemoveAny ftp p fs
  = (Some (Errorf_s_s_w p (Error not_found) ErrNotExist), fs).
Proof.
  intros H. unfold FTP.RemoveAny, FTP.Stat. cbn [FTP.c_Stat ftp].
  unfold fs_Stat. rewrite H. reflexivity.
Qed.

Lemma RemoveAny_file (p : string) (fs : FS) :
  lookup p fs = Some false -> locked fs = [] ->
  FTP.RemoveAny ftp p fs = (None, erase p fs).
Proof.
  intros H Hl. unfold FTP.RemoveAny, FTP.Stat, FTP.DeleteFile.
  cbn [FTP.c_Stat FTP.c_Delete ftp].
  unfold fs_Stat, fs_Delete. rewrite H. cbn [IsDir].
  rewrite H, (is_locked_none p fs Hl). reflexivity.
Qed.

Lemma RemoveAny_empty_dir (p : string) (fs : FS) :
  lookup p fs = Some true -> children p fs = [] -> locked fs = [] ->
  FTP.RemoveAny ftp p fs = (None, erase p fs).
Proof.
  intros H Hc Hl. unfold FTP.RemoveAny, FTP.Stat, FTP.DeleteDir.
  cbn [FTP.c_Stat FTP.c_Rmdir ftp].
  unfold fs_Stat, fs_Rmdir. rewrite H. cbn [IsDir].
  rewrite H, Hc, (is_locked_none p fs Hl). reflexivity.
Qed.

Lemma RemoveAny_full_dir (p : string) (fs : FS) :
  lookup p fs = Some true -> children p fs <> [] ->
  FTP.RemoveAny ftp p fs
  = (Some (Errorf_not_empty p (Error not_empty) ErrPermission), fs).
Proof.
  intros H Hc. unfold FTP.RemoveAny, FTP.Stat, FTP.DeleteDir.
  cbn [FTP.c_Stat FTP.c_Rmdir ftp].
  unfold fs_Stat, fs_Rmdir. rewrite H. cbn [IsDir]. rewrite H.
  destruct (children p fs); [congruence | reflexivity].
Qed.

Lemma ReadDir_dir (p : string) (fs : FS) :
  lookup p fs = Some true ->
  FTP.c_ReadDir ftp p fs = (inl (children p fs), fs).
Proof.
  intros H. cbn [FTP.c_ReadDir ftp]. unfold fs_ReadDir. rewrite H.
  reflexivity.
Qed.

(** Nothing lies below an absent path of a tree. *)
Lemma prune_absent (p : string) (fs : FS) :
  is_tree fs -> lookup p fs = None -> prune p fs = fs.
Proof.
  intros Ht H. destruct fs as [es lk]. unfold prune. cbn [entries locked].
  f_equal. apply filter_id. intros [q k] Hin. cbn [fst].
  destruct (under p q) eqn:E; [|reflexivity].
  apply under_cases in E. destruct E as [->|[b ->]].
  - apply (In_lookup p k (mkFS es lk)) in Hin. destruct Hin as [d Hd].
    congruence.
  - rewrite (Ht _ _ p b Hin eq_refl) in H. discriminate.
Qed.

(** A file of a tree has nothing below it. *)
Lemma file_no_children (p : string) (fs : FS) :
  is_tree fs -> lookup p fs = Some false -> children p fs = [].
Proof.
  intros Ht H. destruct (children p fs) as [|i rest] eqn:E; [reflexivity|].
  assert (Hi : In i (children p fs)) by (rewrite E; now left).
  apply children_entries in Hi.
  rewrite (Ht _ _ p (Name i) Hi eq_refl) in H. discriminate.
Qed.

(** Removing an entry that has no children removes all there is below
    it. *)
Lemma erase_is_prune (p : string) (fs : FS) :
  is_tree fs -> children p fs = [] -> erase p fs = prune p fs.
Proof.
  intros Ht Hc. unfold erase, prune. f_equal.
  apply filter_ext_in. intros [q k] Hin. unfold key_is. cbn [fst].
  f_equal. unfold under.
  destruct (String.eqb_spec q p) as [->|Hne]; [reflexivity|].
  cbn [orb]. destruct (prefix (p ++ "/") q) eqn:E; [|reflexivity].
  assert (Hu : under p q = true) by (unfold under; rewrite E; apply orb_true_r).
  destruct (below_some_child p q k fs Ht Hin Hu Hne) as [i [Hi _]].
  rewrite Hc in Hi. contradiction.
Qed.

(** Once the listed children are pruned, the directory lists empty. *)
Lemma children_after_prune (p : string) (fs : FS) :
  children p (fold_left (fun fs n => prune (p ++ "/" ++ n) fs)
                        (map Name (children p fs)) fs) = [].
Proof.
  set (fs' := fold_left _ _ fs).
  destruct (children p fs') as [|i rest] eqn:E; [reflexivity|].
  assert (Hi : In i (children p fs')) by (rewrite E; now left).
  apply In_children in Hi. destruct Hi as [q [Hin Hc]].
  subst fs'. rewrite prune_children_entries in Hin.
  apply filter_In in Hin. destruct Hin as [Hin Hall]. cbn [fst] in Hall.
  rewrite forallb_forall in Hall.
  assert (Hn : In (Name i) (map Name (children p fs))).
  { apply in_map, In_children. exists q. split; assumption. }
  specialize (Hall _ Hn).
  apply child_name_spec in Hc. destruct Hc as [-> _].
  rewrite under_refl in Hall. discriminate.
Qed.

(** Pruning the listed children and then removing the directory is pruning
    the directory. *)
Lemma erase_after_prune (p : string) (fs : FS) :
  is_tree fs ->
  erase p (fold_left (fun fs n => prune (p ++ "/" ++ n) fs)
                     (map Name (children p fs)) fs)
  = prune p fs.
Proof.
  intros Ht. unfold erase.
  rewrite prune_children_entries, prune_children_locked.
  unfold prune. f_equal. rewrite filter_filter.
  apply filter_ext_in. intros [q k] Hin. unfold key_is. cbn [fst].
  destruct (under p q) eqn:Eu.
  - destruct (String.eqb_spec q p) as [->|Hne]; [apply andb_false_r|].
    destruct (below_some_child p q k fs Ht Hin Eu Hne) as [i [Hi Hu]].
    match goal with |- ?b && _ = _ => destruct b eqn:Ef end;
      [|reflexivity].
    rewrite forallb_forall in Ef.
    specialize (Ef (Name i) (in_map Name _ _ Hi)).
    rewrite Hu in Ef. discriminate.
  - destruct (String.eqb_spec q p) as [->|Hne].
    { rewrite under_refl in Eu. discriminate. }
    cbn [negb]. rewrite andb_true_r.
    apply forallb_forall. intros n _.
    destruct (under (p ++ "/" ++ n) q) eqn:E; [|reflexivity].
    apply under_child in E. destruct E as [E _]. congruence.
Qed.

Section Induction.
Variable fuel : nat.
Hypothesis IH : forall p fs,
  is_tree fs -> locked fs = [] -> p <> "" ->
  count_under p fs + 3 <= fuel ->
  FTP.RemoveAllRecursive ftp fuel p fs = Some (None, prune p fs).

Lemma range_prunes (p : string) (names : list string) :
  forall fs,
  is_tree fs -> locked fs = [] ->
  (forall n, In n names -> count_under (p ++ "/" ++ n) fs + 3 <= fuel) ->
  FTP.range_names (FTP.RemoveAllRecursive ftp fuel) p names None 0 fs
  = Some ((None, 0),
          fold_left (fun fs n => prune (p ++ "/" ++ n) fs) names fs).
Proof.
  induction names as [|n names IHn]; intros fs Ht Hl Hc; [reflexivity|].
  cbn [FTP.range_names fold_left]. unfold bind.
  rewrite (IH _ fs Ht Hl (append_nonempty p n) (Hc n (or_introl eq_refl))).
  apply IHn.
  - apply is_tree_prune, Ht.
  - exact Hl.
  - intros m Hm.
    pose proof (count_prune_le (p ++ "/" ++ m) (p ++ "/" ++ n) fs).
    pose proof (Hc m (or_intror Hm)). lia.
Qed.

End Induction.

Lemma RemoveAll_prunes (fuel : nat) :
  forall p fs,
  is_tree fs -> locked fs = [] -> p <> "" ->
  count_under p fs + 3 <= fuel ->
  FTP.RemoveAllRecursive ftp fuel p fs = Some (None, prune p fs).
Proof.
  induction fuel as [|fuel IH]; intros p fs Ht Hl Hp Hc; [lia|].
  destruct (lookup p fs) as [[|]|] eqn:E.
  - destruct (children p fs) as [|i0 rest] eqn:Ech.
    + rewrite (RemoveAll_removed ftp _ p fs _ Hp
                 (RemoveAny_empty_dir p fs E Ech Hl)).
      rewrite (erase_is_prune p fs Ht Ech). reflexivity.
    + assert (Hne : children p fs <> []) by (rewrite Ech; discriminate).
      rewrite (RemoveAll_descend ftp fuel p fs fs _ Hp
                 (RemoveAny_full_dir p fs E Hne) eq_refl
                 (not_empty_tagged _ _ _)).
      destruct fuel as [|[|fuel]]; [lia | lia |].
      rewrite DIR_loop_S, (ReadDir_dir p fs E).
      destruct (List.length (children p fs) =? 0)%nat eqn:E0.
      { rewrite Ech in E0. discriminate. }
      rewrite (retry_loop_S ftp _ _ _ _ _ _ _ Hne). cbn [app].
      rewrite (range_prunes _ IH p (map Name (children p fs)) fs Ht Hl).
      2:{ intros n _. pose proof (count_child_lt p n true fs E). lia. }
      rewrite (Nat.eqb_sym 0), E0.
      set (fs' := fold_left _ _ fs).
      assert (E' : lookup p fs' = Some true).
      { subst fs'. rewrite prune_children_lookup. exact E. }
      assert (Ec' : children p fs' = []).
      { subst fs'. apply children_after_prune. }
      assert (Hl' : locked fs' = []).
      { subst fs'. rewrite prune_children_locked. exact Hl. }
      rewrite DIR_loop_S, (ReadDir_dir p fs' E'), Ec'. cbn [List.length Nat.eqb].
      unfold FTP.remove_directory.
      rewrite (RemoveAny_empty_dir p fs' E' Ec' Hl').
      subst fs'. rewrite (erase_after_prune p fs Ht). reflexivity.
  - rewrite (RemoveAll_removed ftp _ p fs _ Hp (RemoveAny_file p fs E Hl)).
    rewrite (erase_is_prune p fs Ht (file_no_children p fs Ht E)).
    reflexivity.
  - rewrite (RemoveAll_absent ftp _ p fs _ _ Hp (RemoveAny_absent p fs E)
               eq_refl).
    rewrite (prune_absent p fs Ht E). reflexivity.
Qed.

End RemoveTree.

(* ================================================================== *)
(** ** The SFTP [RemoveAllRecursive]: the paths through the function *)

Section SFTPPaths.
Context {St : Type} (c : SFTP.Client St).

Lemma sftp_RemoveAll_removed (fuel : nat) (path : string) (s s1 : St) :
  path <> "" ->
  SFTP.Remove c path s = (None, s1) ->
  SFTP.RemoveAllRecursive c fuel path s = Some (None, s1).
Proof.
  intros Hp H. apply String.eqb_neq in Hp.
  destruct fuel; simpl; rewrite Hp; unfold bind, lift; rewrite H; reflexivity.
Qed.

Lemma sftp_RemoveAll_absent (fuel : nat) (path : string) (s s1 : St)
    (e : error) :
  path <> "" ->
  SFTP.Remove c path s = (Some e, s1) ->
  errors_Is e ErrNotExist = true ->
  SFTP.RemoveAllRecursive c fuel path s = Some (None, s1).
Proof.
  intros Hp H Hi. apply String.eqb_neq in Hp.
  destruct fuel; simpl; rewrite Hp; unfold bind, lift; rewrite H, Hi;
    reflexivity.
Qed.

Lemma sftp_RemoveAll_failed (fuel : nat) (path : string) (s s1 : St)
    (e : error) :
  path <> "" ->
  SFTP.Remove c path s = (Some e, s1) ->
  errors_Is e ErrNotExist = false ->
  SFTP.is_other_status e = true ->
  SFTP.RemoveAllRecursive c fuel path s = Some (Some e, s1).
Proof.
  intros Hp H Hi Hc. apply String.eqb_neq in Hp.
  destruct fuel; simpl; rewrite Hp; unfold bind, lift; rewrite H, Hi, Hc;
    reflexivity.
Qed.

Lemma sftp_RemoveAll_descend (fuel : nat) (path : string) (s s1 : St)
    (e : error) :
  path <> "" ->
  SFTP.Remove c path s = (Some e, s1) ->
  errors_Is e ErrNotExist = false ->
  SFTP.is_other_status e = false ->
  SFTP.RemoveAllRecursive c (S fuel) path s =
  match SFTP.DIR_loop c fuel (SFTP.RemoveAllRecursive c fuel) path s1 with
  | Some (Return r, s2) => Some (r, s2)
  | Some (_, s2) => Some (SFTP.remove_directory c path s2)
  | None => None
  end.
Proof.
  intros Hp H Hi Hc. apply String.eqb_neq in Hp.
  simpl. rewrite Hp. unfold bind, lift. rewrite H, Hi, Hc. simpl.
  destruct (SFTP.DIR_loop c fuel (SFTP.RemoveAllRecursive c fuel) path s1)
    as [[[| |r] s2]|]; reflexivity.
Qed.

Lemma sftp_RemoveAll_descend_0 (path : string) (s s1 : St) (e : error) :
  path <> "" ->
  SFTP.Remove c path s = (Some e, s1) ->
  errors_Is e ErrNotExist = false ->
  SFTP.is_other_status e = false ->
  SFTP.RemoveAllRecursive c 0 path s = None.
Proof.
  intros Hp H Hi Hc. apply String.eqb_neq in Hp.
  simpl. rewrite Hp. unfold bind, lift. rewrite H, Hi, Hc. reflexivity.
Qed.

Lemma sftp_retry_loop_S (fuel : nat) (rec : string -> M St (option error))
    (path : string) (infos : list FileInfo) (names : list string)
    (err : option error) (s : St) :
  infos <> [] ->
  SFTP.retry_loop fuel rec path infos (List.length infos) names err s =
  match fuel with
  | O => None
  | S fuel' =>
      match SFTP.range_names rec path (names ++ map Name infos)%list err 0 s
      with
      | Some ((err', numErr), s1) =>
          if (numErr =? List.length infos)%nat
          then SFTP.retry_loop fuel' rec path infos (List.length infos)
                 (names ++ map Name infos)%list err' s1
          else Some ((Break, (names ++ map Name infos)%list, err'), s1)
      | None => None
      end
  end.
Proof.
  intros Hne. destruct fuel as [|fuel]; [reflexivity|]. simpl.
  assert (Hpos : 0 < List.length (names ++ map Name infos)%list).
  { rewrite length_app, length_map. destruct infos; [congruence|].
    simpl. lia. }
  destruct (List.length (names ++ map Name infos)%list =? 0)%nat eqn:E0.
  { apply Nat.eqb_eq in E0. lia. }
  unfold bind.
  destruct (SFTP.range_names rec path (names ++ map Name infos)%list err 0 s)
    as [[[err' numErr] s1]|]; [|reflexivity].
  destruct (numErr =? List.length infos)%nat; reflexivity.
Qed.

(** What the inner loop hands back is never shorter than the listing, so
    the test of line 247 never holds. *)
Lemma sftp_retry_loop_names (rec : string -> M St (option error))
    (path : string) (infos : list FileInfo) (fuel : nat) :
  forall names err s f names' err' s',
  infos <> [] ->
  SFTP.retry_loop fuel rec path infos (List.length infos) names err s
    = Some ((f, names', err'), s') ->
  f = Break /\ List.length infos <= List.length names'.
Proof.
  induction fuel as [|fuel IH]; intros names err s f names' err' s' Hne H.
  - discriminate.
  - rewrite (sftp_retry_loop_S _ _ _ _ _ _ _ Hne) in H.
    destruct (SFTP.range_names rec path (names ++ map Name infos)%list err 0 s)
      as [[[err1 numErr] s1]|]; [|discriminate].
    destruct (numErr =? List.length infos)%nat.
    + eapply IH; eassumption.
    + inversion H; subst. split; [reflexivity|].
      rewrite length_app, length_map. lia.
Qed.

Lemma sftp_DIR_loop_S (fuel : nat) (rec : string -> M St (option error))
    (path : string) (s : St) :
  SFTP.DIR_loop c (S fuel) rec path s =
  match SFTP.c_ReadDir c path s with
  | (inr err, s1) =>
      if errors_Is err ErrNotExist then Some (Return None, s1)
      else Some (Return (Some err), s1)
  | (inl infos, s1) =>
      if (List.length infos =? 0)%nat then Some (Break, s1)
      else
        match SFTP.retry_loop fuel rec path infos (List.length infos)
                [] None s1 with
        | Some (_, s2) => SFTP.DIR_loop c fuel rec path s2
        | None => None
        end
  end.
Proof.
  simpl. unfold bind, lift, SFTP.ReadDir.
  destruct (SFTP.c_ReadDir c path s) as [[infos|err] s1].
  - destruct (List.length infos =? 0)%nat eqn:E0; [reflexivity|].
    assert (Hne : infos <> []).
    { intros ->. discriminate. }
    destruct (SFTP.retry_loop fuel rec path infos (List.length infos)
                [] None s1) as [[[[f names] err] s2]|] eqn:E; [|reflexivity].
    destruct (sftp_retry_loop_names _ _ _ _ _ _ _ _ _ _ _ Hne E) as [-> Hlen].
    destruct (List.length names <? List.length infos)%nat eqn:E1;
      [|reflexivity].
    apply Nat.ltb_lt in E1. lia.
  - destruct (errors_Is err ErrNotExist); reflexivity.
Qed.

End SFTPPaths.

(* ================================================================== *)
(** ** The SFTP [RemoveAllRecursive] on a tree whose entries can all be
       removed *)

Module RemoveTreeSFTP.
Import MemFS MemFSFacts RemoveTree.

Lemma Remove_absent (p : string) (fs : FS) :
  lookup p fs = None ->
  SFTP.Remove sftp p fs = (Some (Sentinel_err ErrNotExist), fs).
Proof.
  intros H. unfold SFTP.Remove. cbn [SFTP.c_Remove sftp].
  unfold fs_Remove. rewrite H. reflexivity.
Qed.

Lemma Remove_file (p : string) (fs : FS) :
  lookup p fs = Some false -> locked fs = [] ->
  SFTP.Remove sftp p fs = (None, erase p fs).
Proof.
  intros H Hl. unfold SFTP.Remove. cbn [SFTP.c_Remove sftp].
  unfold fs_Remove. rewrite H, (is_locked_none p fs Hl). reflexivity.
Qed.

Lemma Remove_empty_dir (p : string) (fs : FS) :
  lookup p fs = Some true -> children p fs = [] -> locked fs = [] ->
  SFTP.Remove sftp p fs = (None, erase p fs).
Proof.
  intros H Hc Hl. unfold SFTP.Remove. cbn [SFTP.c_Remove sftp].
  unfold fs_Remove, fs_RemoveDirectory.
  rewrite H, Hc, (is_locked_none p fs Hl). reflexivity.
Qed.

Lemma Remove_full_dir (p : string) (fs : FS) :
  lookup p fs = Some true -> children p fs <> [] ->
  SFTP.Remove sftp p fs = (Some status_not_empty, fs).
Proof.
  intros H Hc. unfold SFTP.Remove. cbn [SFTP.c_Remove sftp].
  unfold fs_Remove, fs_RemoveDirectory. rewrite H.
  destruct (children p fs); [congruence | reflexivity].
Qed.

Lemma remove_directory_empty (p : string) (fs : FS) :
  lookup p fs = Some true -> children p fs = [] -> locked fs = [] ->
  SFTP.remove_directory sftp p fs = (None, erase p fs).
Proof.
  intros H Hc Hl. unfold SFTP.remove_directory, SFTP.DeleteDir.
  cbn [SFTP.c_RemoveDirectory sftp]. unfold fs_RemoveDirectory.
  rewrite H, Hc, (is_locked_none p fs Hl). reflexivity.
Qed.

Lemma sftp_ReadDir_dir (p : string) (fs : FS) :
  lookup p fs = Some true ->
  SFTP.c_ReadDir sftp p fs = (inl (children p fs), fs).
Proof.
  intros H. cbn [SFTP.c_ReadDir sftp]. unfold fs_ReadDir. rewrite H.
  reflexivity.
Qed.

Section Induction.
Variable fuel : nat.
Hypothesis IH : forall p fs,
  is_tree fs -> locked fs = [] -> p <> "" ->
  count_under p fs + 3 <= fuel ->
  SFTP.RemoveAllRecursive sftp fuel p fs = Some (None, prune p fs).

Lemma sftp_range_prunes (p : string) (names : list string) :
  forall fs,
  is_tree fs -> locked fs = [] ->
  (forall n, In n names -> count_under (p ++ "/" ++ n) fs + 3 <= fuel) ->
  SFTP.range_names (SFTP.RemoveAllRecursive sftp fuel) p names None 0 fs
  = Some ((None, 0),
          fold_left (fun fs n => prune (p ++ "/" ++ n) fs) names fs).
Proof.
  induction names as [|n names IHn]; intros fs Ht Hl Hc; [reflexivity|].
  cbn [SFTP.range_names fold_left]. unfold bind.
  rewrite (IH _ fs Ht Hl (append_nonempty p n) (Hc n (or_introl eq_refl))).
  apply IHn.
  - apply is_tree_prune, Ht.
  - exact Hl.
  - intros m Hm.
    pose proof (count_prune_le (p ++ "/" ++ m) (p ++ "/" ++ n) fs).
    pose proof (Hc m (or_intror Hm)). lia.
Qed.

End Induction.

Lemma sftp_RemoveAll_prunes (fuel : nat) :
  forall p fs,
  is_tree fs -> locked fs = [] -> p <> "" ->
  count_under p fs + 3 <= fuel ->
  SFTP.RemoveAllRecursive sftp fuel p fs = Some (None, prune p fs).
Proof.
  induction fuel as [|fuel IH]; intros p fs Ht Hl Hp Hc; [lia|].
  destruct (lookup p fs) as [[|]|] eqn:E.
  - destruct (children p fs) as [|i0 rest] eqn:Ech.
    + rewrite (sftp_RemoveAll_removed sftp _ p fs _ Hp
                 (Remove_empty_dir p fs E Ech Hl)).
      rewrite (erase_is_prune p fs Ht Ech). reflexivity.
    + assert (Hne : children p fs <> []) by (rewrite Ech; discriminate).
      rewrite (sftp_RemoveAll_descend sftp fuel p fs fs _ Hp
                 (Remove_full_dir p fs E Hne) eq_refl eq_refl).
      destruct fuel as [|[|fuel]]; [lia | lia |].
      rewrite sftp_DIR_loop_S, (sftp_ReadDir_dir p fs E).
      destruct (List.length (children p fs) =? 0)%nat eqn:E0.
      { rewrite Ech in E0. discriminate. }
      rewrite (sftp_retry_loop_S _ _ _ _ _ _ _ Hne). cbn [app].
      rewrite (sftp_range_prunes _ IH p (map Name (children p fs)) fs Ht Hl).
      2:{ intros n _. pose proof (count_child_lt p n true fs E). lia. }
      rewrite (Nat.eqb_sym 0), E0.
      set (fs' := fold_left _ _ fs).
      assert (E' : lookup p fs' = Some true).
      { subst fs'. rewrite prune_children_lookup. exact E. }
      assert (Ec' : children p fs' = []).
      { subst fs'. apply children_after_prune. }
      assert (Hl' : locked fs' = []).
      { subst fs'. rewrite prune_children_locked. exact Hl. }
      rewrite sftp_DIR_loop_S, (sftp_ReadDir_dir p fs' E'), Ec'.
      cbn [List.length Nat.eqb].
      rewrite (remove_directory_empty p fs' E' Ec' Hl').
      subst fs'. rewrite (erase_after_prune p fs Ht). reflexivity.
  - rewrite (sftp_RemoveAll_removed sftp _ p fs _ Hp (Remove_file p fs E Hl)).
    rewrite (erase_is_prune p fs Ht (file_no_children p fs Ht E)).
    reflexivity.
  - rewrite (sftp_RemoveAll_absent sftp _ p fs _ _ Hp (Remove_absent p fs E)
               eq_refl).
    rewrite (prune_absent p fs Ht E). reflexivity.
Qed.

End RemoveTreeSFTP.

(** *** A file the server refuses to remove, through SFTP *)

Lemma sftp_stuck_child (n : nat) :
  SFTP.RemoveAllRecursive MemFS.sftp n "d/f" Scenario.stuck
  = Some (Some MemFS.status_refused, Scenario.stuck).
Proof. destruct n; reflexivity. Qed.

Ltac sftp_stuck_step :=
  cbn [SFTP.retry_loop SFTP.range_names app map Name List.length
       Nat.eqb Nat.ltb Nat.leb negb append];
  unfold bind, ret; rewrite ?sftp_stuck_child; cbn beta iota.

Lemma sftp_stuck_retry (m n : nat) :
  SFTP.retry_loop m (SFTP.RemoveAllRecursive MemFS.sftp n) "d"
    [mkInfo "f" false] 1 [] None Scenario.stuck = None \/
  SFTP.retry_loop m (SFTP.RemoveAllRecursive MemFS.sftp n) "d"
    [mkInfo "f" false] 1 [] None Scenario.stuck
  = Some ((Break, ["f"; "f"], Some MemFS.status_refused), Scenario.stuck).
Proof.
  destruct m as [|[|m]].
  - left. reflexivity.
  - left. do 2 sftp_stuck_step. reflexivity.
  - right. do 3 sftp_stuck_step. reflexivity.
Qed.

Lemma sftp_stuck_DIR_loop (m n : nat) :
  SFTP.DIR_loop MemFS.sftp m (SFTP.RemoveAllRecursive MemFS.sftp n) "d"
    Scenario.stuck = None.
Proof.
  induction m as [|m IH]; [reflexivity|].
  rewrite sftp_DIR_loop_S.
  change (SFTP.c_ReadDir MemFS.sftp "d" Scenario.stuck)
    with (@inl (list FileInfo) error [mkInfo "f" false], Scenario.stuck).
  cbn [List.length Nat.eqb].
  destruct (sftp_stuck_retry m n) as [-> | ->]; [reflexivity | exact IH].
Qed.

Lemma sftp_RemoveAll_unremovable_leaf (fuel : nat) :
  SFTP.RemoveAllRecursive MemFS.sftp fuel "d" Scenario.stuck = None.
Proof.
  destruct fuel as [|fuel]; [reflexivity|].
  rewrite (sftp_RemoveAll_descend MemFS.sftp fuel "d" Scenario.stuck
             Scenario.stuck MemFS.status_not_empty);
    [| discriminate | reflexivity | reflexivity | reflexivity].
  rewrite sftp_stuck_DIR_loop. reflexivity.
Qed.

(* ================================================================== *)
(** ** Fuel: a result does not depend on how much fuel was left over *)

Section FuelFTP.
Context {St : Type} (c : FTP.Client St).

Section Loops.
Variables rec rec' : string -> M St (option error).
Hypothesis rec_le : forall p s r, rec p s = Some r -> rec' p s = Some r.

Lemma range_names_mono (path : string) (names : list string) :
  forall err numErr s r,
  FTP.range_names rec path names err numErr s = Some r ->
  FTP.range_names rec' path names err numErr s = Some r.
Proof.
  induction names as [|name rest IH]; intros err numErr s r H;
    [exact H|].
  cbn [FTP.range_names] in *. unfold bind in *.
  destruct (rec (path ++ "/" ++ name) s) as [[err1 s1]|] eqn:E;
    [|discriminate].
  rewrite (rec_le _ _ _ E). apply IH, H.
Qed.

Lemma retry_loop_mono (path : string) (infos : list FileInfo)
    (entities : nat) (fuel : nat) :
  forall fuel' names err s r,
  fuel <= fuel' ->
  FTP.retry_loop c fuel rec path infos entities names err s = Some r ->
  FTP.retry_loop c fuel' rec' path infos entities names err s = Some r.
Proof.
  induction fuel as [|fuel IH]; intros fuel' names err s r Hle H;
    [discriminate|].
  destruct fuel' as [|fuel']; [lia|].
  assert (Hle' : fuel <= fuel') by lia.
  cbn [FTP.retry_loop] in *.
  destruct (List.length (names ++ map Name infos)%list =? 0)%nat;
    [exact H|].
  unfold bind in *.
  destruct (FTP.range_names rec path (names ++ map Name infos)%list err 0 s)
    as [[[err' numErr] s1]|] eqn:E; [|discriminate].
  rewrite (range_names_mono _ _ _ _ _ _ E).
  destruct (numErr =? entities)%nat; cbn [negb] in *; [|exact H].
  destruct (List.length (names ++ map Name infos)%list <? entities)%nat.
  - unfold lift in *.
    destruct (FTP.RemoveAny c path s1) as [[e1|] s2]; [|exact H].
    destruct (errors_Is e1 ErrNotExist); [exact H|].
    destruct err'; [exact H|]. apply (IH _ _ _ _ _ Hle' H).
  - apply (IH _ _ _ _ _ Hle' H).
Qed.

Lemma DIR_loop_mono (path : string) (fuel : nat) :
  forall fuel' s r,
  fuel <= fuel' ->
  FTP.DIR_loop c fuel rec path s = Some r ->
  FTP.DIR_loop c fuel' rec' path s = Some r.
Proof.
  induction fuel as [|fuel IH]; intros fuel' s r Hle H; [discriminate|].
  destruct fuel' as [|fuel']; [lia|].
  assert (Hle' : fuel <= fuel') by lia.
  rewrite DIR_loop_S in *.
  destruct (FTP.c_ReadDir c path s) as [[infos|err] s1]; [|exact H].
  destruct (List.length infos =? 0)%nat; [exact H|].
  destruct (FTP.retry_loop c fuel rec path infos (List.length infos)
              [] None s1) as [[f s2]|] eqn:E; [|discriminate].
  rewrite (retry_loop_mono _ _ _ _ _ _ _ _ _ Hle' E).
  destruct f; [apply (IH _ _ _ Hle' H) | exact H | exact H].
Qed.

End Loops.

Lemma RemoveAll_fuel_mono (fuel : nat) :
  forall fuel' path s r,
  fuel <= fuel' ->
  FTP.RemoveAllRecursive c fuel path s = Some r ->
  FTP.RemoveAllRecursive c fuel' path s = Some r.
Proof.
  induction fuel as [|fuel IH]; intros fuel' path s r Hle H.
  - destruct (String.eqb_spec path "") as [->|Hp].
    { rewrite RemoveAll_empty in H. rewrite RemoveAll_empty. exact H. }
    destruct (FTP.RemoveAny c path s) as [[e|] s1] eqn:E.
    + destruct (errors_Is e ErrNotExist) eqn:Ei.
      { rewrite (RemoveAll_absent c _ _ _ _ _ Hp E Ei) in H.
        rewrite (RemoveAll_absent c _ _ _ _ _ Hp E Ei). exact H. }
      destruct (Contains (Error e) "Directory is not empty") eqn:Ec.
      * rewrite (RemoveAll_descend_0 c _ _ _ _ Hp E Ei Ec) in H.
        discriminate.
      * rewrite (RemoveAll_failed c _ _ _ _ _ Hp E Ei Ec) in H.
        rewrite (RemoveAll_failed c _ _ _ _ _ Hp E Ei Ec). exact H.
    + rewrite (RemoveAll_removed c _ _ _ _ Hp E) in H.
      rewrite (RemoveAll_removed c _ _ _ _ Hp E). exact H.
  - destruct fuel' as [|fuel']; [lia|].
    assert (Hle' : fuel <= fuel') by lia.
    destruct (String.eqb_spec path "") as [->|Hp].
    { rewrite RemoveAll_empty in H. rewrite RemoveAll_empty. exact H. }
    destruct (FTP.RemoveAny c path s) as [[e|] s1] eqn:E.
    + destruct (errors_Is e ErrNotExist) eqn:Ei.
      { rewrite (RemoveAll_absent c _ _ _ _ _ Hp E Ei) in H.
        rewrite (RemoveAll_absent c _ _ _ _ _ Hp E Ei). exact H. }
      destruct (Contains (Error e) "Directory is not empty") eqn:Ec.
      * rewrite (RemoveAll_descend c _ _ _ _ _ Hp E Ei Ec) in H.
        rewrite (RemoveAll_descend c _ _ _ _ _ Hp E Ei Ec).
        destruct (FTP.DIR_loop c fuel (FTP.RemoveAllRecursive c fuel) path s1)
          as [[f s2]|] eqn:Ed; [|discriminate].
        rewrite (DIR_loop_mono _ _
                   (fun p s r => IH fuel' p s r Hle') _ _ _ _ _ Hle' Ed).
        exact H.
      * rewrite (RemoveAll_failed c _ _ _ _ _ Hp E Ei Ec) in H.
        rewrite (RemoveAll_failed c _ _ _ _ _ Hp E Ei Ec). exact H.
    + rewrite (RemoveAll_removed c _ _ _ _ Hp E) in H.
      rewrite (RemoveAll_removed c _ _ _ _ Hp E). exact H.
Qed.

End FuelFTP.

(* ================================================================== *)
(** ** Both backends *)

(** C1.  On the server, for a tree [fs] none of whose entries is locked and
    a root other than the empty path: with enough fuel (three more than the
    number of entries at or below the root) [RemoveAllRecursive root]
    returns, on the FTP backend and on the SFTP backend; its result is nil,
    and the tree it leaves is [fs] without the root and without anything
    below it: no path at or below the root is found any more, every other
    path is as before. *)
Theorem RemoveAll_removes_whole_tree (fs : MemFS.FS) (root : string)
    (fuel : nat) :
  MemFS.wf fs = true ->
  MemFS.locked fs = [] ->
  root <> "" ->
  MemFS.count_under root fs + 3 <= fuel ->
  FTP.RemoveAllRecursive MemFS.ftp fuel root fs
    = Some (None, MemFS.prune root fs) /\
  SFTP.RemoveAllRecursive MemFS.sftp fuel root fs
    = Some (None, MemFS.prune root fs) /\
  (forall q, MemFS.under root q = true ->
             MemFS.lookup q (MemFS.prune root fs) = None) /\
  (forall q, MemFS.under root q = false ->
             MemFS.lookup q (MemFS.prune root fs) = MemFS.lookup q fs).
Proof.
  intros Hwf Hl Hp Hc.
  pose proof (MemFSFacts.wf_is_tree fs Hwf) as Ht.
  split; [|split; [|split]].
  - apply RemoveTree.RemoveAll_prunes; assumption.
  - apply RemoveTreeSFTP.sftp_RemoveAll_prunes; assumption.
  - intros q. apply MemFSFacts.lookup_pruned.
  - intros q. apply MemFSFacts.lookup_prune.
Qed.

Lemma RemoveAll_removes_whole_tree_witness :
  FTP.RemoveAllRecursive MemFS.ftp 8 "d" Scenario.small
    = Some (None, MemFS.mkFS [("e", false)] []) /\
  SFTP.RemoveAllRecursive MemFS.sftp 8 "d" Scenario.small
    = Some (None, MemFS.mkFS [("e", false)] []).
Proof.
  pose proof (RemoveAll_removes_whole_tree Scenario.small "d" 8) as H.
  destruct H as (H1 & H2 & _);
    [reflexivity | reflexivity | discriminate | simpl; lia |].
  split; [exact H1 | exact H2].
Defined.

(** C2.  The inner loop on two inputs.
    (1) [Scenario.stuck], one listed child, every removal refused: the
        first pass tries [d/f] once, the second pass tries it twice
        ([names] holds the listing twice), counts two failures against one
        listed entry, and leaves the loop although nothing was removed; on
        the SFTP backend likewise, [names] being ["f"; "f"] at the end.
    (2) [Scenario.pair], two listed children, [d/a] released after the
        first pass: the second pass removes [d/a], counts two failures
        against two listed entries and does not leave the loop (two units
        of fuel are not enough); the loop is left after a third pass over
        the listing taken three times. *)
Theorem retry_loop_later_passes :
  (forall n,
     FTP.retry_loop (Log.logged MemFS.ftp) 2
       (FTP.RemoveAllRecursive (Log.logged MemFS.ftp) n) "d"
       [mkInfo "f" false] 1 [] None (Scenario.stuck, [])
     = Some (Break,
             (Scenario.stuck,
              [Log.CStat "d/f"; Log.CDelete "d/f";
               Log.CStat "d/f"; Log.CDelete "d/f";
               Log.CStat "d/f"; Log.CDelete "d/f"]))) /\
  (forall n,
     SFTP.retry_loop 2 (SFTP.RemoveAllRecursive MemFS.sftp n) "d"
       [mkInfo "f" false] 1 [] None Scenario.stuck
     = Some ((Break, ["f"; "f"], Some MemFS.status_refused),
             Scenario.stuck)) /\
  FTP.retry_loop MemFS.shared_ftp 2
    (FTP.RemoveAllRecursive MemFS.shared_ftp 0) "d"
    [mkInfo "a" false; mkInfo "b" false] 2 [] None Scenario.pair = None /\
  FTP.retry_loop MemFS.shared_ftp 3
    (FTP.RemoveAllRecursive MemFS.shared_ftp 0) "d"
    [mkInfo "a" false; mkInfo "b" false] 2 [] None Scenario.pair
  = Some (Break,
          (MemFS.mkFS [("d", true); ("d/b", false)] ["d/b"], [])).
Proof.
  split; [|split; [|split]]; [| | reflexivity | reflexivity];
    intros n; destruct n; reflexivity.
Qed.

(** C4.  On the tree [d], [d/f] whose file [d/f] the server always refuses
    to remove, [RemoveAllRecursive "d"] returns with no amount of fuel, on
    the FTP backend and on the SFTP backend: the listing of [d] never
    changes, every pass over it fails, and no branch of the loop leaves
    it. *)
Theorem RemoveAll_unremovable_leaf_never_returns (fuel : nat) :
  FTP.RemoveAllRecursive MemFS.ftp fuel "d" Scenario.stuck = None /\
  SFTP.RemoveAllRecursive MemFS.sftp fuel "d" Scenario.stuck = None.
Proof.
  split;
    [apply ftp_RemoveAll_unremovable_leaf
    | apply sftp_RemoveAll_unremovable_leaf].
Qed.

(* ================================================================== *)
(** * Further properties *)

(** ** The calls [RemoveAny] and [RemoveAllRecursive] make *)

Section TraceFacts.
Context {St : Type}.
Implicit Types w : St * list Log.Call.

Lemma continues_refl (ok : Log.Call -> bool) w : Trace.continues ok w w.
Proof. exists []. split; [symmetry; apply app_nil_r | reflexivity]. Qed.

Lemma continues_trans (ok : Log.Call -> bool) w1 w2 w3 :
  Trace.continues ok w1 w2 -> Trace.continues ok w2 w3 ->
  Trace.continues ok w1 w3.
Proof.
  intros [c1 [E1 H1]] [c2 [E2 H2]]. exists (c1 ++ c2)%list. split.
  - rewrite E2, E1. symmetry. apply app_assoc.
  - rewrite forallb_app, H1, H2. reflexivity.
Qed.

Lemma continues_weaken (ok ok' : Log.Call -> bool) w1 w2 :
  (forall k, ok k = true -> ok' k = true) ->
  Trace.continues ok w1 w2 -> Trace.continues ok' w1 w2.
Proof.
  intros Hk [c [E H]]. exists c. split; [exact E|].
  rewrite forallb_forall in *. auto.
Qed.

Lemma removal_call_child (root n : string) (k : Log.Call) :
  Trace.removal_call (root ++ "/" ++ n) k = true ->
  Trace.removal_call root k = true.
Proof.
  destruct k; simpl; try discriminate;
    intros H; now apply MemFSFacts.under_child in H.
Qed.

End TraceFacts.

Lemma RemoveAny_log {St : Type} (c : FTP.Client St) (path : string)
    (s : St) (log : list Log.Call) :
  let '(r, (s', log')) := FTP.RemoveAny (Log.logged c) path (s, log) in
  (r, s') = FTP.RemoveAny c path s /\
  match FTP.c_Stat c path s with
  | (inr _, _) => log' = (log ++ [Log.CStat path])%list
  | (inl dir, _) =>
      log' = (log ++ [Log.CStat path;
                      if IsDir dir then Log.CRmdir path
                      else Log.CDelete path])%list
  end.
Proof.
  unfold FTP.RemoveAny, FTP.Stat, FTP.DeleteDir, FTP.DeleteFile.
  cbn [FTP.c_Stat FTP.c_Rmdir FTP.c_Delete Log.logged]. unfold Log.record.
  destruct (FTP.c_Stat c path s) as [[dir|err] s1].
  - destruct (IsDir dir).
    + destruct (FTP.c_Rmdir c path s1) as [[err|] s2];
        (split; [reflexivity | now rewrite <- app_assoc]).
    + destruct (FTP.c_Delete c path s1) as [[err|] s2];
        (split; [reflexivity | now rewrite <- app_assoc]).
  - split; reflexivity.
Qed.

(** X5.  [RemoveAny path] calls [Stat path] once and then at most one
    removal, on the same path: [Rmdir] when [Stat] reported a directory,
    [Delete] when it reported anything else, nothing when [Stat] failed. *)
Theorem RemoveAny_calls {St : Type} (c : FTP.Client St) (path : string)
    (s : St) (log : list Log.Call) :
  let '(r, (s', log')) := FTP.RemoveAny (Log.logged c) path (s, log) in
  (r, s') = FTP.RemoveAny c path s /\
  match FTP.c_Stat c path s with
  | (inr _, _) => log' = (log ++ [Log.CStat path])%list
  | (inl dir, _) =>
      log' = (log ++ [Log.CStat path;
                      if IsDir dir then Log.CRmdir path
                      else Log.CDelete path])%list
  end.
Proof. apply RemoveAny_log. Qed.

Lemma RemoveAny_continues {St : Type} (c : FTP.Client St) (path : string)
    (w w' : St * list Log.Call) (r : option error) :
  FTP.RemoveAny (Log.logged c) path w = (r, w') ->
  Trace.continues (Trace.removal_call path) w w'.
Proof.
  destruct w as [s log]. intros H.
  pose proof (RemoveAny_log c path s log) as Hc. rewrite H in Hc.
  destruct w' as [s' log']. destruct Hc as [_ Hc]. cbn [snd].
  destruct (FTP.c_Stat c path s) as [[dir|err] s1]; subst log'.
  - eexists. split; [reflexivity|]. cbn [forallb Trace.removal_call].
    rewrite MemFSFacts.under_refl.
    destruct (IsDir dir); cbn [Trace.removal_call];
      rewrite MemFSFacts.under_refl; reflexivity.
  - eexists. split; [reflexivity|]. cbn [forallb Trace.removal_call].
    rewrite MemFSFacts.under_refl. reflexivity.
Qed.

(** *** A relation every step keeps is kept by the whole call *)

Section Preserved.
Context {St : Type} (c : FTP.Client St).
Variable R : string -> St -> St -> Prop.
Hypothesis R_refl : forall p s, R p s s.
Hypothesis R_trans : forall p s1 s2 s3, R p s1 s2 -> R p s2 s3 -> R p s1 s3.
Hypothesis R_child : forall p n s s', R (p ++ "/" ++ n) s s' -> R p s s'.
Hypothesis R_RemoveAny : forall p s r s',
  FTP.RemoveAny c p s = (r, s') -> R p s s'.
Hypothesis R_ReadDir : forall p s r s',
  FTP.c_ReadDir c p s = (r, s') -> R p s s'.

Section Loops.
Variable rec : string -> M St (option error).
Hypothesis rec_keeps : forall p s r s', rec p s = Some (r, s') -> R p s s'.

Lemma range_names_keeps (path : string) (names : list string) :
  forall err numErr s r s',
  FTP.range_names rec path names err numErr s = Some (r, s') ->
  R path s s'.
Proof.
  induction names as [|name rest IH]; intros err numErr s r s' H.
  - cbv [FTP.range_names ret] in H. inversion H; subst. apply R_refl.
  - cbn [FTP.range_names] in H. unfold bind in H.
    destruct (rec (path ++ "/" ++ name) s) as [[err1 s1]|] eqn:E;
      [|discriminate].
    eapply R_trans; [|eapply IH, H].
    eapply R_child, rec_keeps, E.
Qed.

Lemma retry_loop_keeps (path : string) (infos : list FileInfo)
    (entities : nat) (fuel : nat) :
  forall names err s f s',
  FTP.retry_loop c fuel rec path infos entities names err s = Some (f, s') ->
  R path s s'.
Proof.
  induction fuel as [|fuel IH]; intros names err s f s' H; [discriminate|].
  cbn [FTP.retry_loop] in H.
  destruct (List.length (names ++ map Name infos)%list =? 0)%nat.
  { cbv [ret] in H. inversion H; subst. apply R_refl. }
  unfold bind in H.
  destruct (FTP.range_names rec path (names ++ map Name infos)%list err 0 s)
    as [[[err' numErr] s1]|] eqn:E; [|discriminate].
  apply range_names_keeps in E.
  eapply R_trans; [exact E|].
  destruct (numErr =? entities)%nat; cbn [negb] in H.
  2:{ cbv [ret] in H. inversion H; subst. apply R_refl. }
  destruct (List.length (names ++ map Name infos)%list <? entities)%nat.
  - unfold lift in H.
    destruct (FTP.RemoveAny c path s1) as [[e1|] s2] eqn:Er;
      apply R_RemoveAny in Er.
    + eapply R_trans; [exact Er|].
      destruct (errors_Is e1 ErrNotExist).
      { cbv [ret] in H. inversion H; subst. apply R_refl. }
      destruct err'.
      * cbv [ret] in H. inversion H; subst. apply R_refl.
      * eapply IH, H.
    + cbv [ret] in H. inversion H; subst. exact Er.
  - eapply IH, H.
Qed.

Lemma DIR_loop_keeps (path : string) (fuel : nat) :
  forall s f s',
  FTP.DIR_loop c fuel rec path s = Some (f, s') -> R path s s'.
Proof.
  induction fuel as [|fuel IH]; intros s f s' H; [discriminate|].
  rewrite DIR_loop_S in H.
  destruct (FTP.c_ReadDir c path s) as [r s1] eqn:Er.
  apply R_ReadDir in Er. eapply R_trans; [exact Er|].
  destruct r as [infos|err].
  - destruct (List.length infos =? 0)%nat.
    { inversion H; subst. apply R_refl. }
    destruct (FTP.retry_loop c fuel rec path infos (List.length infos)
                [] None s1) as [[g s2]|] eqn:E; [|discriminate].
    apply retry_loop_keeps in E.
    eapply R_trans; [exact E|].
    destruct g; [eapply IH, H | |]; inversion H; subst; apply R_refl.
  - destruct (errors_Is err ErrNotExist); inversion H; subst; apply R_refl.
Qed.

End Loops.

Lemma remove_directory_keeps (path : string) (s s' : St)
    (r : option error) :
  FTP.remove_directory c path s = (r, s') -> R path s s'.
Proof.
  unfold FTP.remove_directory.
  destruct (FTP.RemoveAny c path s) as [[e1|] s1] eqn:E;
    apply R_RemoveAny in E.
  - destruct (errors_Is e1 ErrNotExist); intros H; inversion H; subst;
      exact E.
  - intros H; inversion H; subst; exact E.
Qed.

Lemma RemoveAll_keeps (fuel : nat) :
  forall path s r s',
  FTP.RemoveAllRecursive c fuel path s = Some (r, s') -> R path s s'.
Proof.
  induction fuel as [|fuel IH]; intros path s r s' H;
    (destruct (String.eqb_spec path "") as [->|Hp];
     [rewrite RemoveAll_empty in H; inversion H; subst; apply R_refl|]);
    destruct (FTP.RemoveAny c path s) as [[e|] s1] eqn:E;
    pose proof (R_RemoveAny _ _ _ _ E) as Hc;
    try (rewrite (RemoveAll_removed c _ _ _ _ Hp E) in H;
         inversion H; subst; exact Hc);
    (destruct (errors_Is e ErrNotExist) eqn:Ei;
     [rewrite (RemoveAll_absent c _ _ _ _ _ Hp E Ei) in H;
      inversion H; subst; exact Hc|]);
    (destruct (Contains (Error e) "Directory is not empty") eqn:Ec;
     [|rewrite (RemoveAll_failed c _ _ _ _ _ Hp E Ei Ec) in H;
       inversion H; subst; exact Hc]).
  - rewrite (RemoveAll_descend_0 c _ _ _ _ Hp E Ei Ec) in H. discriminate.
  - rewrite (RemoveAll_descend c _ _ _ _ _ Hp E Ei Ec) in H.
    destruct (FTP.DIR_loop c fuel (FTP.RemoveAllRecursive c fuel) path s1)
      as [[f s2]|] eqn:Ed; [|discriminate].
    apply (DIR_loop_keeps _ IH) in Ed.
    eapply R_trans; [exact Hc|]. eapply R_trans; [exact Ed|].
    destruct f; inversion H; subst;
      first [eapply remove_directory_keeps; eassumption | apply R_refl].
Qed.

End Preserved.

(** X1.  Whatever the client answers and however the call ends,
    [RemoveAllRecursive root] only adds to the log calls of [Stat],
    [ReadDir], [Delete] and [Rmdir] whose path is [root] or [root/...]: it
    never calls [Mkdir] or [Close], and never touches a path outside
    [root]. *)
Theorem RemoveAll_calls_confined {St : Type} (c : FTP.Client St)
    (fuel : nat) (root : string) (w w' : St * list Log.Call)
    (r : option error) :
  FTP.RemoveAllRecursive (Log.logged c) fuel root w = Some (r, w') ->
  Trace.continues (Trace.removal_call root) w w'.
Proof.
  apply (RemoveAll_keeps (Log.logged c)
           (fun p => Trace.continues (Trace.removal_call p))).
  - intros p s. apply continues_refl.
  - intros p s1 s2 s3. apply continues_trans.
  - intros p n s s'. apply continues_weaken, removal_call_child.
  - intros p s r0 s'. apply RemoveAny_continues.
  - intros p [s log] r0 [s' log'] H.
    cbn [FTP.c_ReadDir Log.logged] in H. unfold Log.record in H.
    destruct (FTP.c_ReadDir c p s) as [r1 s1]. inversion H; subst.
    exists [Log.CReadDir p]. split; [reflexivity|].
    cbn [forallb Trace.removal_call]. rewrite MemFSFacts.under_refl.
    reflexivity.
Qed.

Lemma RemoveAll_calls_confined_witness :
  exists w',
    FTP.RemoveAllRecursive (Log.logged MemFS.ftp) 4 "d" (Scenario.small, [])
      = Some (None, w') /\
    Trace.continues (Trace.removal_call "d") (Scenario.small, []) w'.
Proof.
  eexists. split; [reflexivity|].
  eapply (RemoveAll_calls_confined MemFS.ftp 4 "d"). reflexivity.
Defined.

(** *** The same for the SFTP backend *)

Lemma sftp_RemoveAll_empty {St : Type} (c : SFTP.Client St) (fuel : nat)
    (s : St) :
  SFTP.RemoveAllRecursive c fuel "" s = Some (None, s).
Proof. destruct fuel; reflexivity. Qed.

Section SFTPPreserved.
Context {St : Type} (c : SFTP.Client St).
Variable R : string -> St -> St -> Prop.
Hypothesis R_refl : forall p s, R p s s.
Hypothesis R_trans : forall p s1 s2 s3, R p s1 s2 -> R p s2 s3 -> R p s1 s3.
Hypothesis R_child : forall p n s s', R (p ++ "/" ++ n) s s' -> R p s s'.
Hypothesis R_Remove : forall p s r s',
  SFTP.Remove c p s = (r, s') -> R p s s'.
Hypothesis R_DeleteDir : forall p s r s',
  SFTP.DeleteDir c p s = (r, s') -> R p s s'.
Hypothesis R_ReadDir : forall p s r s',
  SFTP.c_ReadDir c p s = (r, s') -> R p s s'.

Section Loops.
Variable rec : string -> M St (option error).
Hypothesis rec_keeps : forall p s r s', rec p s = Some (r, s') -> R p s s'.

Lemma sftp_range_names_keeps (path : string) (names : list string) :
  forall err numErr s r s',
  SFTP.range_names rec path names err numErr s = Some (r, s') ->
  R path s s'.
Proof.
  induction names as [|name rest IH]; intros err numErr s r s' H.
  - cbv [SFTP.range_names ret] in H. inversion H; subst. apply R_refl.
  - cbn [SFTP.range_names] in H. unfold bind in H.
    destruct (rec (path ++ "/" ++ name) s) as [[err1 s1]|] eqn:E;
      [|discriminate].
    eapply R_trans; [|eapply IH, H].
    eapply R_child, rec_keeps, E.
Qed.

Lemma sftp_retry_loop_keeps (path : string) (infos : list FileInfo)
    (entities : nat) (fuel : nat) :
  forall names err s f s',
  SFTP.retry_loop fuel rec path infos entities names err s = Some (f, s') ->
  R path s s'.
Proof.
  induction fuel as [|fuel IH]; intros names err s f s' H; [discriminate|].
  cbn [SFTP.retry_loop] in H.
  destruct (List.length (names ++ map Name infos)%list =? 0)%nat.
  { cbv [ret] in H. inversion H; subst. apply R_refl. }
  unfold bind in H.
  destruct (SFTP.range_names rec path (names ++ map Name infos)%list err 0 s)
    as [[[err' numErr] s1]|] eqn:E; [|discriminate].
  apply sftp_range_names_keeps in E.
  eapply R_trans; [exact E|].
  destruct (numErr =? entities)%nat; cbn [negb] in H.
  - eapply IH, H.
  - cbv [ret] in H. inversion H; subst. apply R_refl.
Qed.

Lemma sftp_DIR_loop_keeps (path : string) (fuel : nat) :
  forall s f s',
  SFTP.DIR_loop c fuel rec path s = Some (f, s') -> R path s s'.
Proof.
  induction fuel as [|fuel IH]; intros s f s' H; [discriminate|].
  rewrite sftp_DIR_loop_S in H.
  destruct (SFTP.c_ReadDir c path s) as [r s1] eqn:Er.
  apply R_ReadDir in Er. eapply R_trans; [exact Er|].
  destruct r as [infos|err].
  - destruct (List.length infos =? 0)%nat.
    { inversion H; subst. apply R_refl. }
    destruct (SFTP.retry_loop fuel rec path infos (List.length infos)
                [] None s1) as [[g s2]|] eqn:E; [|discriminate].
    apply sftp_retry_loop_keeps in E.
    eapply R_trans; [exact E|]. eapply IH, H.
  - destruct (errors_Is err ErrNotExist); inversion H; subst; apply R_refl.
Qed.

End Loops.

Lemma sftp_remove_directory_keeps (path : string) (s s' : St)
    (r : option error) :
  SFTP.remove_directory c path s = (r, s') -> R path s s'.
Proof.
  unfold SFTP.remove_directory.
  destruct (SFTP.DeleteDir c path s) as [[e1|] s1] eqn:E;
    apply R_DeleteDir in E.
  - destruct (errors_Is e1 ErrNotExist); intros H; inversion H; subst;
      exact E.
  - intros H; inversion H; subst; exact E.
Qed.

Lemma sftp_RemoveAll_keeps (fuel : nat) :
  forall path s r s',
  SFTP.RemoveAllRecursive c fuel path s = Some (r, s') -> R path s s'.
Proof.
  induction fuel as [|fuel IH]; intros path s r s' H;
    (destruct (String.eqb_spec path "") as [->|Hp];
     [rewrite sftp_RemoveAll_empty in H; inversion H; subst; apply R_refl|]);
    destruct (SFTP.Remove c path s) as [[e|] s1] eqn:E;
    pose proof (R_Remove _ _ _ _ E) as Hc;
    try (rewrite (sftp_RemoveAll_removed c _ _ _ _ Hp E) in H;
         inversion H; subst; exact Hc);
    (destruct (errors_Is e ErrNotExist) eqn:Ei;
     [rewrite (sftp_RemoveAll_absent c _ _ _ _ _ Hp E Ei) in H;
      inversion H; subst; exact Hc|]);
    (destruct (SFTP.is_other_status e) eqn:Ec;
     [rewrite (sftp_RemoveAll_failed c _ _ _ _ _ Hp E Ei Ec) in H;
      inversion H; subst; exact Hc|]).
  - rewrite (sftp_RemoveAll_descend_0 c _ _ _ _ Hp E Ei Ec) in H.
    discriminate.
  - rewrite (sftp_RemoveAll_descend c _ _ _ _ _ Hp E Ei Ec) in H.
    destruct (SFTP.DIR_loop c fuel (SFTP.RemoveAllRecursive c fuel) path s1)
      as [[f s2]|] eqn:Ed; [|discriminate].
    apply (sftp_DIR_loop_keeps _ IH) in Ed.
    eapply R_trans; [exact Hc|]. eapply R_trans; [exact Ed|].
    destruct f; inversion H; subst;
      first [eapply sftp_remove_directory_keeps; eassumption | apply R_refl].
Qed.

End SFTPPreserved.

(** ** What [RemoveAllRecursive] leaves of the server's tree *)

Module FrameFacts.
Import MemFS MemFSFacts Frame.

Lemma shrunk_refl (p : string) (fs : FS) : shrunk_under p fs fs.
Proof. repeat split; auto using incl_refl. Qed.

Lemma shrunk_trans (p : string) (fs1 fs2 fs3 : FS) :
  shrunk_under p fs1 fs2 -> shrunk_under p fs2 fs3 ->
  shrunk_under p fs1 fs3.
Proof.
  intros (L1 & I1 & U1 & T1) (L2 & I2 & U2 & T2). repeat split.
  - congruence.
  - eapply incl_tran; eassumption.
  - intros q Hq. rewrite (U2 q Hq). apply U1, Hq.
  - auto.
Qed.

Lemma shrunk_child (p n : string) (fs fs' : FS) :
  shrunk_under (p ++ "/" ++ n) fs fs' -> shrunk_under p fs fs'.
Proof.
  intros (L & I & U & T). repeat split; auto.
  intros q Hq. apply U.
  destruct (under (p ++ "/" ++ n) q) eqn:E; [|reflexivity].
  apply under_child in E. destruct E as [E _]. congruence.
Qed.

Lemma lookup_erase_other (p q : string) (fs : FS) :
  q <> p -> lookup q (erase p fs) = lookup q fs.
Proof.
  intros H. unfold lookup, erase. cbn [entries].
  rewrite find_filter; [reflexivity|].
  intros [k v] _ Hk. unfold key_is in *. cbn [fst] in *.
  apply String.eqb_eq in Hk. subst k.
  apply String.eqb_neq in H. rewrite H. reflexivity.
Qed.

(** Taking away a file, or a directory that lists empty. *)
Lemma shrunk_erase (p : string) (fs : FS) :
  lookup p fs = Some false \/ children p fs = [] ->
  shrunk_under p fs (erase p fs).
Proof.
  intros Hp. repeat split.
  - unfold erase. cbn [entries]. apply incl_filter.
  - intros q Hq. apply lookup_erase_other. intros ->.
    rewrite under_refl in Hq. discriminate.
  - intros Ht q k a b Hin ->.
    unfold erase in Hin. cbn [entries] in Hin.
    apply filter_In in Hin. destruct Hin as [Hin Hk].
    pose proof (Ht _ _ a b Hin eq_refl) as Ha.
    rewrite lookup_erase_other; [exact Ha|]. intros ->.
    destruct Hp as [Hf|Hc]; [congruence|].
    destruct (below_some_child p (p ++ "/" ++ b) k fs Ht Hin) as [i [Hi _]].
    + apply under_cases. right. eauto.
    + apply append_longer.
    + rewrite Hc in Hi. contradiction.
Qed.

Lemma fs_Delete_shrunk (p : string) (fs fs' : FS) (r : option error) :
  fs_Delete p fs = (r, fs') -> shrunk_under p fs fs'.
Proof.
  unfold fs_Delete.
  destruct (lookup p fs) as [[|]|] eqn:E.
  - intros H; inversion H; subst; apply shrunk_refl.
  - destruct (is_locked p fs); intros H; inversion H; subst;
      [apply shrunk_refl | apply shrunk_erase; now left].
  - intros H; inversion H; subst; apply shrunk_refl.
Qed.

Lemma fs_Rmdir_shrunk (p : string) (fs fs' : FS) (r : option error) :
  fs_Rmdir p fs = (r, fs') -> shrunk_under p fs fs'.
Proof.
  unfold fs_Rmdir.
  destruct (lookup p fs) as [[|]|] eqn:E.
  - destruct (children p fs) eqn:Ec.
    + destruct (is_locked p fs); intros H; inversion H; subst;
        [apply shrunk_refl | apply shrunk_erase; now right].
    + intros H; inversion H; subst; apply shrunk_refl.
  - intros H; inversion H; subst; apply shrunk_refl.
  - intros H; inversion H; subst; apply shrunk_refl.
Qed.

Lemma fs_RemoveDirectory_shrunk (p : string) (fs fs' : FS)
    (r : option error) :
  fs_RemoveDirectory p fs = (r, fs') -> shrunk_under p fs fs'.
Proof.
  unfold fs_RemoveDirectory.
  destruct (lookup p fs) as [[|]|] eqn:E.
  - destruct (children p fs) eqn:Ec.
    + destruct (is_locked p fs); intros H; inversion H; subst;
        [apply shrunk_refl | apply shrunk_erase; now right].
    + intros H; inversion H; subst; apply shrunk_refl.
  - intros H; inversion H; subst; apply shrunk_refl.
  - intros H; inversion H; subst; apply shrunk_refl.
Qed.

Lemma fs_Remove_shrunk (p : string) (fs fs' : FS) (r : option error) :
  fs_Remove p fs = (r, fs') -> shrunk_under p fs fs'.
Proof.
  unfold fs_Remove.
  destruct (lookup p fs) as [[|]|] eqn:E.
  - apply fs_RemoveDirectory_shrunk.
  - destruct (is_locked p fs); intros H; inversion H; subst;
      [apply shrunk_refl | apply shrunk_erase; now left].
  - intros H; inversion H; subst; apply shrunk_refl.
Qed.

Lemma fs_Stat_same (p : string) (fs fs' : FS) (r : FileInfo + error) :
  fs_Stat p fs = (r, fs') -> fs' = fs.
Proof.
  unfold fs_Stat. destruct (lookup p fs); intros H; now inversion H.
Qed.

Lemma fs_ReadDir_same (p : string) (fs fs' : FS)
    (r : list FileInfo + error) :
  fs_ReadDir p fs = (r, fs') -> fs' = fs.
Proof.
  unfold fs_ReadDir. destruct (lookup p fs) as [[|]|]; intros H;
    now inversion H.
Qed.

Lemma ftp_RemoveAny_shrunk (p : string) (fs fs' : FS) (r : option error) :
  FTP.RemoveAny ftp p fs = (r, fs') -> shrunk_under p fs fs'.
Proof.
  unfold FTP.RemoveAny, FTP.Stat, FTP.DeleteDir, FTP.DeleteFile.
  cbn [FTP.c_Stat FTP.c_Rmdir FTP.c_Delete ftp].
  destruct (fs_Stat p fs) as [[dir|err] fs1] eqn:Es;
    apply fs_Stat_same in Es; subst fs1.
  - destruct (IsDir dir).
    + destruct (fs_Rmdir p fs) as [[e|] fs2] eqn:E;
        apply fs_Rmdir_shrunk in E; intros H; inversion H; subst; exact E.
    + destruct (fs_Delete p fs) as [[e|] fs2] eqn:E;
        apply fs_Delete_shrunk in E; intros H; inversion H; subst; exact E.
  - intros H; inversion H; subst. apply shrunk_refl.
Qed.

Lemma sftp_Remove_shrunk (p : string) (fs fs' : FS) (r : option error) :
  SFTP.Remove sftp p fs = (r, fs') -> shrunk_under p fs fs'.
Proof.
  unfold SFTP.Remove. cbn [SFTP.c_Remove SFTP.c_RemoveDirectory sftp].
  destruct (fs_Remove p fs) as [[e|] fs1] eqn:E;
    pose proof (fs_Remove_shrunk _ _ _ _ E) as Hs.
  - destruct (SFTP.is_ErrPermission e).
    + intros H. apply fs_RemoveDirectory_shrunk in H.
      eapply shrunk_trans; eassumption.
    + intros H; inversion H; subst; exact Hs.
  - intros H; inversion H; subst; exact Hs.
Qed.

End FrameFacts.

(** X2.  On the server, whatever its tree and its locks, with any fuel and
    whatever the call returns (nil or an error), [RemoveAllRecursive root]
    of either backend leaves the locks as they were, adds no entry, leaves
    every path that is not [root] or below it exactly as it was, and leaves
    a tree a tree. *)
Theorem RemoveAll_touches_only_its_subtree (fuel : nat) (root : string)
    (fs : MemFS.FS) :
  (forall r fs',
     FTP.RemoveAllRecursive MemFS.ftp fuel root fs = Some (r, fs') ->
     Frame.shrunk_under root fs fs') /\
  (forall r fs',
     SFTP.RemoveAllRecursive MemFS.sftp fuel root fs = Some (r, fs') ->
     Frame.shrunk_under root fs fs').
Proof.
  split; intros r fs'.
  - apply (RemoveAll_keeps MemFS.ftp Frame.shrunk_under).
    + apply FrameFacts.shrunk_refl.
    + apply FrameFacts.shrunk_trans.
    + apply FrameFacts.shrunk_child.
    + intros p s r0 s'. apply FrameFacts.ftp_RemoveAny_shrunk.
    + intros p s r0 s' H. apply FrameFacts.fs_ReadDir_same in H. subst.
      apply FrameFacts.shrunk_refl.
  - apply (sftp_RemoveAll_keeps MemFS.sftp Frame.shrunk_under).
    + apply FrameFacts.shrunk_refl.
    + apply FrameFacts.shrunk_trans.
    + apply FrameFacts.shrunk_child.
    + intros p s r0 s'. apply FrameFacts.sftp_Remove_shrunk.
    + intros p s r0 s'. apply FrameFacts.fs_RemoveDirectory_shrunk.
    + intros p s r0 s' H. apply FrameFacts.fs_ReadDir_same in H. subst.
      apply FrameFacts.shrunk_refl.
Qed.

Lemma RemoveAll_touches_only_its_subtree_witness :
  Frame.shrunk_under "d" Scenario.small (MemFS.mkFS [("e", false)] []) /\
  Frame.shrunk_under "d/f" Scenario.stuck Scenario.stuck.
Proof.
  split.
  - apply (proj1 (RemoveAll_touches_only_its_subtree 4 "d" Scenario.small)
             None).
    reflexivity.
  - apply (proj2 (RemoveAll_touches_only_its_subtree 0 "d/f" Scenario.stuck)
             (Some MemFS.status_refused)).
    reflexivity.
Defined.

(* ================================================================== *)
(** ** How the loops of [RemoveAllRecursive] can end *)

Lemma retry_loop_only_break {St : Type} (c : FTP.Client St)
    (rec : string -> M St (option error)) (path : string)
    (infos : list FileInfo) (fuel : nat) :
  forall names err s f s',
  infos <> [] ->
  FTP.retry_loop c fuel rec path infos (List.length infos) names err s
    = Some (f, s') ->
  f = Break.
Proof.
  induction fuel as [|fuel IH]; intros names err s f s' Hne H;
    [discriminate|].
  rewrite (retry_loop_S c _ _ _ _ _ _ _ Hne) in H.
  destruct (FTP.range_names rec path (names ++ map Name infos)%list err 0 s)
    as [[[err1 numErr] s1]|]; [|discriminate].
  destruct (numErr =? List.length infos)%nat.
  - eapply IH; eassumption.
  - inversion H; subst. reflexivity.
Qed.

(** X8.  For a non-empty listing, the inner loop of either backend can only
    be left through [break]: its [break DIR] and, in the FTP version, its
    two [return]s are never reached (whatever the client answers), and the
    slice [names] it leaves is never shorter than the listing, so that the
    test [len(names) < entities] which follows it in the SFTP version is
    never true. *)
Theorem inner_loop_leaves_by_break {St : Type} (c : FTP.Client St)
    (rec : string -> M St (option error)) (path : string)
    (infos : list FileInfo) (fuel : nat) (names : list string)
    (err : option error) (s : St) :
  infos <> [] ->
  (forall f s',
     FTP.retry_loop c fuel rec path infos (List.length infos) names err s
       = Some (f, s') -> f = Break) /\
  (forall f names' err' s',
     SFTP.retry_loop fuel rec path infos (List.length infos) names err s
       = Some ((f, names', err'), s') ->
     f = Break /\ List.length infos <= List.length names').
Proof.
  intros Hne. split.
  - intros f s'. apply retry_loop_only_break, Hne.
  - intros f names' err' s'. apply sftp_retry_loop_names, Hne.
Qed.

Lemma inner_loop_leaves_by_break_witness :
  [mkInfo "a" false; mkInfo "s" true] <> [] /\
  (exists s',
     FTP.retry_loop MemFS.ftp 3 (FTP.RemoveAllRecursive MemFS.ftp 3) "d"
       [mkInfo "a" false; mkInfo "s" true] 2 [] None Scenario.small
       = Some (Break, s')) /\
  (exists names' err' s',
     SFTP.retry_loop 3 (SFTP.RemoveAllRecursive MemFS.sftp 3) "d"
       [mkInfo "a" false; mkInfo "s" true] 2 [] None Scenario.small
       = Some ((Break, names', err'), s') /\
     2 <= List.length names').
Proof.
  assert (Hne : [mkInfo "a" false; mkInfo "s" true] <> []) by discriminate.
  split; [exact Hne|].
  destruct (inner_loop_leaves_by_break MemFS.ftp
              (FTP.RemoveAllRecursive MemFS.ftp 3) "d"
              [mkInfo "a" false; mkInfo "s" true] 3 [] None Scenario.small
              Hne) as [H1 _].
  destruct (inner_loop_leaves_by_break MemFS.ftp
              (SFTP.RemoveAllRecursive MemFS.sftp 3) "d"
              [mkInfo "a" false; mkInfo "s" true] 3 [] None Scenario.small
              Hne) as [_ H2].
  cbn [List.length] in H1, H2. split.
  - destruct (FTP.retry_loop MemFS.ftp 3 (FTP.RemoveAllRecursive MemFS.ftp 3)
                "d" [mkInfo "a" false; mkInfo "s" true] 2 [] None
                Scenario.small) as [[f s']|] eqn:E.
    + exists s'. rewrite (H1 f s' eq_refl). reflexivity.
    + vm_compute in E. discriminate E.
  - destruct (SFTP.retry_loop 3 (SFTP.RemoveAllRecursive MemFS.sftp 3)
                "d" [mkInfo "a" false; mkInfo "s" true] 2 [] None
                Scenario.small) as [[[[f names'] err'] s']|] eqn:E.
    + exists names', err', s'.
      destruct (H2 f names' err' s' eq_refl) as [-> Hlen].
      split; [reflexivity | exact Hlen].
    + vm_compute in E. discriminate E.
Defined.

Lemma DIR_loop_returns_ReadDir_error {St : Type} (c : FTP.Client St)
    (rec : string -> M St (option error)) (path : string) (fuel : nat) :
  forall s e s',
  FTP.DIR_loop c fuel rec path s = Some (Return (Some e), s') ->
  exists s0, FTP.c_ReadDir c path s0 = (inr e, s').
Proof.
  induction fuel as [|fuel IH]; intros s e s' H; [discriminate|].
  rewrite DIR_loop_S in H.
  destruct (FTP.c_ReadDir c path s) as [[infos|err] s1] eqn:Er.
  - destruct (List.length infos =? 0)%nat eqn:E0; [discriminate|].
    assert (Hne : infos <> []) by (intros ->; discriminate).
    destruct (FTP.retry_loop c fuel rec path infos (List.length infos)
                [] None s1) as [[g s2]|] eqn:E; [|discriminate].
    apply (retry_loop_only_break c) in E; [|exact Hne]. subst g.
    eapply IH, H.
  - destruct (errors_Is err ErrNotExist); inversion H; subst.
    exists s. exact Er.
Qed.

(** X3.  An error [RemoveAllRecursive path] returns is always one that a
    call on [path] itself produced: the error of a [RemoveAny path] (the
    first or the last one) or of a [ReadDir path], with the state that call
    left.  The error of a child is never what the call returns. *)
Theorem RemoveAll_error_comes_from_path {St : Type} (c : FTP.Client St)
    (fuel : nat) (path : string) (s s' : St) (e : error) :
  FTP.RemoveAllRecursive c fuel path s = Some (Some e, s') ->
  (exists s0, FTP.RemoveAny c path s0 = (Some e, s')) \/
  (exists s0, FTP.c_ReadDir c path s0 = (inr e, s')).
Proof.
  intros H.
  destruct (String.eqb_spec path "") as [->|Hp].
  { rewrite RemoveAll_empty in H. discriminate. }
  destruct (FTP.RemoveAny c path s) as [[e0|] s1] eqn:E.
  2:{ rewrite (RemoveAll_removed c _ _ _ _ Hp E) in H. discriminate. }
  destruct (errors_Is e0 ErrNotExist) eqn:Ei.
  { rewrite (RemoveAll_absent c _ _ _ _ _ Hp E Ei) in H. discriminate. }
  destruct (Contains (Error e0) "Directory is not empty") eqn:Ec.
  2:{ rewrite (RemoveAll_failed c _ _ _ _ _ Hp E Ei Ec) in H.
      inversion H; subst. left. eauto. }
  destruct fuel as [|fuel].
  { rewrite (RemoveAll_descend_0 c _ _ _ _ Hp E Ei Ec) in H. discriminate. }
  rewrite (RemoveAll_descend c _ _ _ _ _ Hp E Ei Ec) in H.
  destruct (FTP.DIR_loop c fuel (FTP.RemoveAllRecursive c fuel) path s1)
    as [[f s2]|] eqn:Ed; [|discriminate].
  assert (Hlast : Some (FTP.remove_directory c path s2) = Some (Some e, s') ->
                  exists s0, FTP.RemoveAny c path s0 = (Some e, s')).
  { unfold FTP.remove_directory.
    destruct (FTP.RemoveAny c path s2) as [[e1|] s3] eqn:E3.
    - destruct (errors_Is e1 ErrNotExist); intros Hq; inversion Hq; subst.
      eauto.
    - intros Hq; inversion Hq. }
  destruct f as [| |r].
  - left. apply Hlast, H.
  - left. apply Hlast, H.
  - inversion H; subst. right.
    eapply DIR_loop_returns_ReadDir_error, Ed.
Qed.

Lemma RemoveAll_error_comes_from_path_witness :
  (exists s0, FTP.RemoveAny MemFS.shared_ftp "d" s0
              = (Some Scenario.kept, (MemFS.mkFS [("d", true)] ["d"], [])))
  \/
  (exists s0, FTP.c_ReadDir MemFS.shared_ftp "d" s0
              = (inr Scenario.kept, (MemFS.mkFS [("d", true)] ["d"], []))).
Proof.
  apply (RemoveAll_error_comes_from_path MemFS.shared_ftp 4 "d"
           Scenario.held).
  reflexivity.
Defined.

(* ================================================================== *)
(** ** A path whose [Stat] fails *)

(** X4.  When [Stat path] fails, for whatever reason and with whatever
    error, [RemoveAllRecursive path] returns nil after that single call:
    nothing is listed and nothing is removed. *)
Theorem RemoveAll_failed_Stat_is_nil {St : Type} (c : FTP.Client St)
    (fuel : nat) (path : string) (s s1 : St) (e : error)
    (log : list Log.Call) :
  path <> "" ->
  FTP.c_Stat c path s = (inr e, s1) ->
  FTP.RemoveAllRecursive (Log.logged c) fuel path (s, log)
  = Some (None, (s1, (log ++ [Log.CStat path])%list)).
Proof.
  intros Hp E.
  apply (RemoveAll_absent (Log.logged c) fuel path (s, log) _
           (Errorf_s_s_w path (Error e) ErrNotExist) Hp); [|reflexivity].
  unfold FTP.RemoveAny, FTP.Stat. cbn [FTP.c_Stat Log.logged].
  unfold Log.record. rewrite E. reflexivity.
Qed.

Lemma RemoveAll_failed_Stat_is_nil_witness :
  FTP.RemoveAllRecursive (Log.logged MemFS.ftp) 0 "gone" (Scenario.small, [])
  = Some (None, (Scenario.small, [Log.CStat "gone"])).
Proof.
  apply (RemoveAll_failed_Stat_is_nil MemFS.ftp 0 "gone" Scenario.small
           Scenario.small MemFS.not_found []);
    [discriminate | reflexivity].
Defined.

(* ================================================================== *)
(** ** One pass over the names *)

Lemma range_names_nil_iff {St : Type}
    (rec : string -> M St (option error)) (path : string)
    (names : list string) :
  forall numErr s err' numErr' s',
  FTP.range_names rec path names None numErr s
    = Some ((err', numErr'), s') ->
  (err' = None <-> numErr' = numErr).
Proof.
  induction names as [|name rest IH]; intros numErr s err' numErr' s' H.
  - cbv [FTP.range_names ret] in H. inversion H; subst. tauto.
  - cbn [FTP.range_names] in H. unfold bind in H.
    destruct (rec (path ++ "/" ++ name) s) as [[[e1|] s1]|];
      [| |discriminate].
    + pose proof (range_names_keeps_first rec _ _ _ _ _ _ _ _ H) as Hk.
      pose proof (range_names_counts rec _ _ _ _ _ _ _ _ H) as Hn.
      subst err'. split; [discriminate | lia].
    + eapply IH, H.
Qed.

(** X7.  One pass of the [range names] loop: an error already held in
    [err] is kept whatever the children return; starting from nil, [err]
    is nil afterwards exactly when no child failed ([numErr] unchanged);
    and [numErr] grows by at most the number of names. *)
Theorem range_names_err_and_count {St : Type}
    (rec : string -> M St (option error)) (path : string)
    (names : list string) (err : option error) (numErr : nat) (s : St)
    (err' : option error) (numErr' : nat) (s' : St) :
  FTP.range_names rec path names err numErr s
    = Some ((err', numErr'), s') ->
  (forall e, err = Some e -> err' = Some e) /\
  (err = None -> (err' = None <-> numErr' = numErr)) /\
  numErr <= numErr' <= numErr + List.length names.
Proof.
  intros H. split; [|split].
  - intros e ->. eapply range_names_keeps_first, H.
  - intros ->. eapply range_names_nil_iff, H.
  - eapply range_names_counts, H.
Qed.

Lemma range_names_err_and_count_witness :
  (forall e, @None error = Some e -> Some Scenario.refusal = Some e) /\
  (@None error = None -> (Some Scenario.refusal = None <-> 1 = 0)) /\
  0 <= 1 <= 0 + List.length ["f"].
Proof.
  apply (range_names_err_and_count
           (FTP.RemoveAllRecursive MemFS.ftp 0) "d" ["f"] None 0
           Scenario.stuck (Some Scenario.refusal) 1 Scenario.stuck).
  reflexivity.
Defined.

(* ================================================================== *)
(** ** Removing twice *)

(** X6.  On the server, once [RemoveAllRecursive root] has removed a tree
    whose entries can all be removed, a second call returns nil and leaves
    what the first call left, on both backends and with any fuel, even
    none. *)
Theorem RemoveAll_twice (fs : MemFS.FS) (root : string) (fuel fuel2 : nat) :
  MemFS.wf fs = true ->
  MemFS.locked fs = [] ->
  root <> "" ->
  MemFS.count_under root fs + 3 <= fuel ->
  exists fs',
    FTP.RemoveAllRecursive MemFS.ftp fuel root fs = Some (None, fs') /\
    SFTP.RemoveAllRecursive MemFS.sftp fuel root fs = Some (None, fs') /\
    FTP.RemoveAllRecursive MemFS.ftp fuel2 root fs' = Some (None, fs') /\
    SFTP.RemoveAllRecursive MemFS.sftp fuel2 root fs' = Some (None, fs').
Proof.
  intros Hwf Hl Hp Hc.
  pose proof (MemFSFacts.wf_is_tree fs Hwf) as Ht.
  exists (MemFS.prune root fs).
  assert (Hgone : MemFS.lookup root (MemFS.prune root fs) = None).
  { apply MemFSFacts.lookup_pruned, MemFSFacts.under_refl. }
  split; [|split; [|split]].
  - apply RemoveTree.RemoveAll_prunes; assumption.
  - apply RemoveTreeSFTP.sftp_RemoveAll_prunes; assumption.
  - eapply RemoveAll_absent;
      [exact Hp | apply RemoveTree.RemoveAny_absent, Hgone | reflexivity].
  - eapply sftp_RemoveAll_absent;
      [exact Hp | apply RemoveTreeSFTP.Remove_absent, Hgone | reflexivity].
Qed.

Lemma RemoveAll_twice_witness :
  exists fs',
    FTP.RemoveAllRecursive MemFS.ftp 8 "d" Scenario.small = Some (None, fs') /\
    SFTP.RemoveAllRecursive MemFS.sftp 8 "d" Scenario.small
      = Some (None, fs') /\
    FTP.RemoveAllRecursive MemFS.ftp 0 "d" fs' = Some (None, fs') /\
    SFTP.RemoveAllRecursive MemFS.sftp 0 "d" fs' = Some (None, fs').
Proof.
  apply (RemoveAll_twice Scenario.small "d" 8 0);
    [reflexivity | reflexivity | discriminate | simpl; lia].
Defined.

(* ================================================================== *)
(** ** [MkdirAll]: termination, calls, result *)

(** X9.  [MkdirAll] always returns: the parent it recurses on is a strictly
    shorter string, so the length of the path is fuel enough, whatever the
    client answers. *)
Theorem MkdirAll_always_returns {St : Type} (c : FTP.Client St)
    (path : string) (s : St) :
  exists r s', FTP.MkdirAll c path s = Some (r, s').
Proof. apply MkdirAll_returns. Qed.

Module PrefixFacts.

Lemma prefix_refl (s : string) : prefix s s = true.
Proof.
  induction s as [|x s IH]; [reflexivity|].
  cbn [prefix]. destruct (ascii_dec x x) as [_|N]; [exact IH | now elim N].
Qed.

Lemma prefix_trans (a b c : string) :
  prefix a b = true -> prefix b c = true -> prefix a c = true.
Proof.
  intros H1 H2. apply prefix_inv in H1. destruct H1 as [x ->].
  apply prefix_inv in H2. destruct H2 as [y ->].
  rewrite append_assoc. apply prefix_append.
Qed.

Lemma prefix_substring (s : string) : forall m, prefix (substring 0 m s) s = true.
Proof.
  induction s as [|x s IH]; intros m.
  - destruct m; reflexivity.
  - destruct m as [|m]; [reflexivity|].
    cbn [substring prefix].
    destruct (ascii_dec x x) as [_|N]; [apply IH | now elim N].
Qed.

Lemma creation_call_parent (path : string) (m : nat) (k : Log.Call) :
  Trace.creation_call (slice path 0 m) k = true ->
  Trace.creation_call path k = true.
Proof.
  unfold slice.
  destruct k; cbn [Trace.creation_call]; try discriminate; intros H;
    (eapply prefix_trans; [exact H | apply prefix_substring]).
Qed.

End PrefixFacts.

Lemma MakeDir_checked_calls {St : Type} (c : FTP.Client St) (path : string)
    (w w' : St * list Log.Call) (r : option error) :
  FTP.MakeDir_checked (Log.logged c) path w = (r, w') ->
  Trace.continues (Trace.creation_call path) w w'.
Proof.
  destruct w as [s log].
  unfold FTP.MakeDir_checked, FTP.MakeDir, FTP.Stat.
  cbn [FTP.c_Mkdir FTP.c_Stat Log.logged]. unfold Log.record.
  destruct (FTP.c_Mkdir c path s) as [[x [e|]] s1].
  - destruct (FTP.c_Stat c path s1) as [[dir|e'] s2];
      [destruct (IsDir dir)| ]; intros H; inversion H; subst;
      (exists [Log.CMkdir path; Log.CStat path];
       split; [cbn [snd]; now rewrite <- app_assoc|];
       cbn [forallb Trace.creation_call];
       rewrite PrefixFacts.prefix_refl; reflexivity).
  - intros H; inversion H; subst.
    exists [Log.CMkdir path]. split; [reflexivity|].
    cbn [forallb Trace.creation_call].
    rewrite PrefixFacts.prefix_refl. reflexivity.
Qed.

(** X10.  Whatever the client answers, [MkdirAll path] only calls [Stat]
    and [Mkdir], and only on prefixes of [path]: it never lists, never
    removes, and never touches a path that is not the beginning of
    [path]. *)
Theorem MkdirAll_calls_confined {St : Type} (c : FTP.Client St)
    (fuel : nat) :
  forall path w r w',
  FTP.MkdirAll_fuel (Log.logged c) fuel path w = Some (r, w') ->
  Trace.continues (Trace.creation_call path) w w'.
Proof.
  induction fuel as [|fuel IH]; intros path w r w' H;
    cbn [FTP.MkdirAll_fuel] in H;
    destruct (FTP.Stat (Log.logged c) path w) as [st w1] eqn:Es;
    (assert (Hs : Trace.continues (Trace.creation_call path) w w1);
     [destruct w as [s log]; unfold FTP.Stat in Es;
      cbn [FTP.c_Stat Log.logged] in Es; unfold Log.record in Es;
      destruct (FTP.c_Stat c path s) as [r0 s0]; inversion Es; subst;
      exists [Log.CStat path]; split; [reflexivity|];
      cbn [forallb Trace.creation_call];
      rewrite PrefixFacts.prefix_refl; reflexivity|]);
    (destruct st as [dir|e];
     [destruct (IsDir dir); inversion H; subst; exact Hs|]);
    destruct (1 <? FTP.scan_element path
                     (FTP.skip_trailing path (String.length path)))%nat;
    try discriminate;
    try (inversion H as [Hm];
         eapply continues_trans; [exact Hs|];
         eapply MakeDir_checked_calls; exact Hm).
  destruct (FTP.MkdirAll_fuel (Log.logged c) fuel _ w1)
    as [[[e1|] w2]|] eqn:Ep; [| |discriminate];
    apply IH in Ep;
    apply (continues_weaken _ (Trace.creation_call path)
             _ _ (PrefixFacts.creation_call_parent path _)) in Ep.
  - inversion H; subst. eapply continues_trans; eassumption.
  - inversion H as [Hm].
    eapply continues_trans; [exact Hs|].
    eapply continues_trans; [exact Ep|].
    eapply MakeDir_checked_calls; exact Hm.
Qed.

Lemma MkdirAll_calls_confined_witness :
  Trace.continues (Trace.creation_call "a/b/c") (Scenario.empty, [])
    (MemFS.mkFS [("a", true); ("a/b", true); ("a/b/c", true)] [],
     [Log.CStat "a/b/c"; Log.CStat "a/b"; Log.CStat "a";
      Log.CMkdir "a"; Log.CMkdir "a/b"; Log.CMkdir "a/b/c"]).
Proof.
  apply (MkdirAll_calls_confined MemFS.ftp 5 "a/b/c" (Scenario.empty, [])
           None).
  reflexivity.
Defined.

(** X13.  When the first [Stat path] succeeds, [MkdirAll] makes no other
    call, with any fuel: it returns nil if the entry is a directory and the
    path error ENOTDIR (op "mkdir", the path) otherwise. *)
Theorem MkdirAll_existing_entry {St : Type} (c : FTP.Client St)
    (fuel : nat) (path : string) (s s1 : St) (dir : FileInfo)
    (log : list Log.Call) :
  FTP.c_Stat c path s = (inl dir, s1) ->
  FTP.MkdirAll_fuel (Log.logged c) fuel path (s, log)
  = Some (if IsDir dir then None
          else Some (PathError "mkdir" path ENOTDIR),
          (s1, (log ++ [Log.CStat path])%list)).
Proof.
  intros E.
  destruct fuel; simpl; unfold FTP.Stat; simpl; unfold Log.record;
    rewrite E; destruct (IsDir dir); reflexivity.
Qed.

Lemma MkdirAll_existing_entry_witness :
  FTP.MkdirAll_fuel (Log.logged MemFS.ftp) 0 "d/s" (Scenario.small, [])
  = Some (None, (Scenario.small, [Log.CStat "d/s"])).
Proof.
  apply (MkdirAll_existing_entry MemFS.ftp 0 "d/s" Scenario.small
           Scenario.small (mkInfo "s" true) []).
  reflexivity.
Defined.

(** *** On the server *)

Module MkdirFacts.
Import MemFS MemFSFacts Paths.

Lemma MkdirAll_fuel_eq {St : Type} (c : FTP.Client St) (fuel : nat)
    (path : string) (s : St) :
  FTP.MkdirAll_fuel c fuel path s =
  match FTP.Stat c path s with
  | (inl dir, s1) =>
      if IsDir dir then Some (None, s1)
      else Some (Some (PathError "mkdir" path ENOTDIR), s1)
  | (inr _, s1) =>
      let j := FTP.scan_element path
                 (FTP.skip_trailing path (String.length path)) in
      if (1 <? j)%nat then
        match fuel with
        | O => None
        | S fuel' =>
            match FTP.MkdirAll_fuel c fuel' (slice path 0 (j - 1)) s1 with
            | None => None
            | Some (Some err, s2) => Some (Some err, s2)
            | Some (None, s2) => Some (FTP.MakeDir_checked c path s2)
            end
        end
      else Some (FTP.MakeDir_checked c path s1)
  end.
Proof. destruct fuel; reflexivity. Qed.

(** What the last step does to the tree. *)
Lemma MakeDir_checked_server (p : string) (fs fs' : FS) (r : option error) :
  FTP.MakeDir_checked ftp p fs = (r, fs') ->
  (fs' = fs \/ (lookup p fs = None /\ fs' = create p true fs)) /\
  (r = None -> lookup p fs' = Some true) /\
  (r = None <->
   lookup p fs = Some true \/ (lookup p fs = None /\ parent_ok p fs = true)).
Proof.
  unfold FTP.MakeDir_checked, FTP.MakeDir, FTP.Stat.
  cbn [FTP.c_Mkdir FTP.c_Stat ftp]. unfold fs_Mkdir, fs_Stat.
  destruct (lookup p fs) as [[|]|] eqn:E.
  - rewrite E. cbn [IsDir]. intros H; inversion H; subst.
    repeat split; auto; try congruence.
  - rewrite E. cbn [IsDir]. intros H; inversion H; subst.
    repeat split; auto; try congruence.
    intros [H1|[H1 _]]; congruence.
  - destruct (parent_ok p fs).
    + intros H; inversion H; subst. repeat split; auto.
      intros _. rewrite lookup_create, E, String.eqb_refl. reflexivity.
    + rewrite E. intros H; inversion H; subst.
      repeat split; auto; try congruence.
      intros [H1|[_ H1]]; congruence.
Qed.

Lemma create_keeps (p q : string) (d : bool) (fs : FS) :
  lookup q fs = Some d -> lookup q (create p true fs) = Some d.
Proof. intros H. rewrite lookup_create, H. reflexivity. Qed.

Lemma create_no_file (p q : string) (fs : FS) :
  lookup q (create p true fs) = Some false -> lookup q fs = Some false.
Proof.
  rewrite lookup_create. destruct (lookup q fs); [auto|].
  destruct (p =? q)%string; discriminate.
Qed.

(** [MkdirAll] on the server only adds directories. *)
Lemma MkdirAll_server_grows (fuel : nat) :
  forall path fs r fs',
  FTP.MkdirAll_fuel ftp fuel path fs = Some (r, fs') ->
  (r = None -> lookup path fs' = Some true) /\
  (forall q d, lookup q fs = Some d -> lookup q fs' = Some d) /\
  (forall q, lookup q fs' = Some false -> lookup q fs = Some false) /\
  locked fs' = locked fs.
Proof.
  assert (Hlast : forall p fs r fs',
    FTP.MakeDir_checked ftp p fs = (r, fs') ->
    (r = None -> lookup p fs' = Some true) /\
    (forall q d, lookup q fs = Some d -> lookup q fs' = Some d) /\
    (forall q, lookup q fs' = Some false -> lookup q fs = Some false) /\
    locked fs' = locked fs).
  { intros p fs r fs' H. apply MakeDir_checked_server in H.
    destruct H as ([->|[_ ->]] & Hn & _); repeat split; auto.
    - intros q d. apply create_keeps.
    - intros q. apply create_no_file. }
  induction fuel as [|fuel IH]; intros path fs r fs' H;
    rewrite MkdirAll_fuel_eq in H; unfold FTP.Stat in H;
    cbn [FTP.c_Stat ftp] in H; unfold fs_Stat in H;
    destruct (lookup path fs) as [d|] eqn:E.
  - destruct d; cbn [IsDir] in H; inversion H; subst;
      repeat split; auto; discriminate.
  - cbv zeta in H.
    destruct (1 <? _)%nat; [discriminate|].
    inversion H as [Hm]. apply Hlast, Hm.
  - destruct d; cbn [IsDir] in H; inversion H; subst;
      repeat split; auto; discriminate.
  - cbv zeta in H.
    destruct (1 <? _)%nat.
    + destruct (FTP.MkdirAll_fuel ftp fuel _ fs) as [[[e1|] fs1]|] eqn:Ep;
        [| |discriminate]; apply IH in Ep;
        destruct Ep as (_ & K1 & F1 & L1).
      * inversion H; subst. repeat split; auto. discriminate.
      * inversion H as [Hm]. apply Hlast in Hm.
        destruct Hm as (N2 & K2 & F2 & L2).
        repeat split; auto. congruence.
    + inversion H as [Hm]. apply Hlast, Hm.
Qed.

End MkdirFacts.

(** X11.  On the server, whatever the tree and however [MkdirAll path]
    ends: if the result is nil, [path] is a directory afterwards; every
    entry that was there is still there with the same kind; no plain file
    appears; the locks are the same. *)
Theorem MkdirAll_server_result (path : string) (fs fs' : MemFS.FS)
    (r : option error) :
  FTP.MkdirAll MemFS.ftp path fs = Some (r, fs') ->
  (r = None -> MemFS.lookup path fs' = Some true) /\
  (forall q d, MemFS.lookup q fs = Some d -> MemFS.lookup q fs' = Some d) /\
  (forall q, MemFS.lookup q fs' = Some false ->
             MemFS.lookup q fs = Some false) /\
  MemFS.locked fs' = MemFS.locked fs.
Proof. apply MkdirFacts.MkdirAll_server_grows. Qed.

Lemma MkdirAll_server_result_witness :
  (@None error = None ->
   MemFS.lookup "d/s/t/u"
     (MemFS.create "d/s/t/u" true (MemFS.create "d/s/t" true Scenario.small))
   = Some true) /\
  (forall q d,
     MemFS.lookup q Scenario.small = Some d ->
     MemFS.lookup q
       (MemFS.create "d/s/t/u" true
          (MemFS.create "d/s/t" true Scenario.small)) = Some d) /\
  (forall q,
     MemFS.lookup q
       (MemFS.create "d/s/t/u" true
          (MemFS.create "d/s/t" true Scenario.small)) = Some false ->
     MemFS.lookup q Scenario.small = Some false) /\
  MemFS.locked
    (MemFS.create "d/s/t/u" true (MemFS.create "d/s/t" true Scenario.small))
  = MemFS.locked Scenario.small.
Proof.
  apply (MkdirAll_server_result "d/s/t/u" Scenario.small _ None).
  reflexivity.
Defined.

Module PathFacts.
Import MemFS MemFSFacts Paths MkdirFacts.

Lemma is_sep_app_r (a b : string) (i : nat) :
  is_sep (a ++ b) (String.length a + i) = is_sep b i.
Proof.
  unfold is_sep. induction a as [|x a IH]; [reflexivity | exact IH].
Qed.

Lemma is_sep_after (p n : string) (k : nat) :
  is_sep (p ++ "/" ++ n) (String.length p + 1 + k) = is_sep n k.
Proof.
  rewrite <- Nat.add_assoc, is_sep_app_r. reflexivity.
Qed.

Lemma is_sep_at (p n : string) :
  is_sep (p ++ "/" ++ n) (String.length p) = true.
Proof. apply is_sep_append. Qed.

Lemma name_no_sep (n : string) :
  Contains n "/" = false -> forall i, is_sep n i = false.
Proof.
  induction n as [|x n IH]; intros H i.
  - destruct i; reflexivity.
  - rewrite Contains_cons, prefix_sep_cons in H.
    apply orb_false_iff in H. destruct H as [Hx Hn].
    destruct i as [|i]; [exact Hx | apply (IH Hn i)].
Qed.

Lemma scan_after (p n : string) :
  Contains n "/" = false ->
  forall k, FTP.scan_element (p ++ "/" ++ n) (String.length p + 1 + k)
            = String.length p + 1.
Proof.
  intros Hn. induction k as [|k IH].
  - rewrite Nat.add_0_r, Nat.add_1_r. cbn [FTP.scan_element].
    rewrite is_sep_at. reflexivity.
  - rewrite Nat.add_succ_r. cbn [FTP.scan_element].
    rewrite is_sep_after, (name_no_sep n Hn). exact IH.
Qed.

Lemma scan_name (n : string) :
  Contains n "/" = false -> forall k, FTP.scan_element n k = 0.
Proof.
  intros Hn. induction k as [|k IH]; [reflexivity|].
  cbn [FTP.scan_element]. rewrite (name_no_sep n Hn). exact IH.
Qed.

Lemma last_sep_after (p n : string) :
  Contains n "/" = false ->
  forall k, last_sep (p ++ "/" ++ n) (String.length p + 1 + k)
            = Some (String.length p).
Proof.
  intros Hn. induction k as [|k IH].
  - rewrite Nat.add_0_r, Nat.add_1_r. cbn [last_sep].
    rewrite is_sep_at. reflexivity.
  - rewrite Nat.add_succ_r. cbn [last_sep].
    rewrite is_sep_after, (name_no_sep n Hn). exact IH.
Qed.

Lemma last_sep_name (n : string) :
  Contains n "/" = false -> forall k, last_sep n k = None.
Proof.
  intros Hn. induction k as [|k IH]; [reflexivity|].
  cbn [last_sep]. rewrite (name_no_sep n Hn). exact IH.
Qed.

Lemma name_length (n : string) : is_name n -> 1 <= String.length n.
Proof. intros [Hne _]. destruct n; [congruence | simpl; lia]. Qed.

Lemma child_length (p n : string) :
  String.length (p ++ "/" ++ n) = String.length p + 1 + String.length n.
Proof. rewrite length_append. simpl. lia. Qed.

(** The two index loops of [MkdirAll] on [p/n]. *)
Lemma skip_child (p n : string) :
  is_name n ->
  FTP.skip_trailing (p ++ "/" ++ n) (String.length (p ++ "/" ++ n))
  = String.length (p ++ "/" ++ n).
Proof.
  intros Hn. pose proof (name_length n Hn) as Hl. destruct Hn as [_ Hc].
  rewrite child_length.
  replace (String.length p + 1 + String.length n)
    with (S (String.length p + 1 + (String.length n - 1))) by lia.
  cbn [FTP.skip_trailing]. rewrite is_sep_after, (name_no_sep n Hc).
  reflexivity.
Qed.

Lemma skip_name (n : string) :
  is_name n -> FTP.skip_trailing n (String.length n) = String.length n.
Proof.
  intros Hn. pose proof (name_length n Hn) as Hl. destruct Hn as [_ Hc].
  destruct (String.length n) as [|m]; [lia|].
  cbn [FTP.skip_trailing]. rewrite (name_no_sep n Hc). reflexivity.
Qed.

Lemma parent_of_child (p n : string) :
  is_name n ->
  let path := p ++ "/" ++ n in
  let j := FTP.scan_element path
             (FTP.skip_trailing path (String.length path)) in
  j = String.length p + 1 /\ slice path 0 (j - 1) = p.
Proof.
  intros Hn path j. subst j path. rewrite (skip_child p n Hn), child_length.
  destruct Hn as [_ Hc]. rewrite (scan_after p n Hc). split; [reflexivity|].
  replace (String.length p + 1 - 1) with (String.length p) by lia.
  apply slice_prefix.
Qed.

Lemma dirname_child (p n : string) :
  is_name n -> dirname (p ++ "/" ++ n) = Some p.
Proof.
  intros [_ Hc]. unfold dirname.
  rewrite child_length, (last_sep_after p n Hc), slice_prefix. reflexivity.
Qed.

Lemma dirname_name (n : string) : is_name n -> dirname n = None.
Proof. intros [_ Hc]. unfold dirname. now rewrite (last_sep_name n Hc). Qed.

Lemma name_not_child (n a b : string) :
  Contains n "/" = false -> n <> a ++ "/" ++ b.
Proof.
  intros Hc ->. rewrite (Contains_middle a "/" b) in Hc. discriminate.
Qed.

(** The directories above [p/n] are [p] and the directories above [p]. *)
Lemma above_child (p : string) :
  forall a n b,
  Contains n "/" = false ->
  p ++ "/" ++ n = a ++ "/" ++ b ->
  a = p \/ exists b', p = a ++ "/" ++ b'.
Proof.
  induction p as [|y p IH]; intros a n b Hc H.
  - destruct a as [|x a]; [now left|].
    cbn [append] in H. injection H as _ H.
    exfalso. exact (name_not_child _ _ _ Hc H).
  - destruct a as [|x a].
    + cbn [append] in H. injection H as -> _. right. exists p. reflexivity.
    + cbn [append] in H. injection H as -> H.
      destruct (IH _ _ _ Hc H) as [->|[b' ->]]; [now left|].
      right. exists b'. reflexivity.
Qed.

Lemma relative_nonempty (p : string) :
  relative_path p -> 1 <= String.length p.
Proof.
  intros H. destruct H as [n Hn|p n _ _].
  - apply name_length, Hn.
  - rewrite child_length. lia.
Qed.

Lemma is_tree_create (p : string) (fs : FS) :
  is_tree fs ->
  (forall a b, p = a ++ "/" ++ b -> lookup a fs = Some true) ->
  is_tree (create p true fs).
Proof.
  intros Ht Hp q k a b Hin Hq. apply create_keeps.
  unfold create in Hin. cbn [entries] in Hin.
  apply in_app_or in Hin. destruct Hin as [Hin|[Hin|[]]].
  - eapply Ht; eassumption.
  - injection Hin as <- _. apply (Hp a b Hq).
Qed.

Lemma MakeDir_checked_creates (p : string) (fs : FS) :
  lookup p fs <> Some false ->
  parent_ok p fs = true ->
  is_tree fs ->
  (forall a b, p = a ++ "/" ++ b -> lookup a fs = Some true) ->
  exists fs', FTP.MakeDir_checked ftp p fs = (None, fs') /\ is_tree fs'.
Proof.
  intros Hf Hp Ht Ha.
  destruct (FTP.MakeDir_checked ftp p fs) as [r fs'] eqn:E.
  pose proof (MakeDir_checked_server p fs fs' r E) as (Hs & _ & Hr).
  assert (r = None) as ->.
  { apply Hr. destruct (lookup p fs) as [[|]|]; auto. congruence. }
  exists fs'. split; [reflexivity|].
  destruct Hs as [->|[_ ->]]; [exact Ht|].
  apply is_tree_create; assumption.
Qed.

Lemma MkdirAll_relative (path : string) :
  relative_path path ->
  forall fuel fs,
  String.length path <= fuel ->
  is_tree fs ->
  free_way path fs ->
  exists fs', FTP.MkdirAll_fuel ftp fuel path fs = Some (None, fs') /\
              is_tree fs'.
Proof.
  induction 1 as [n Hn | p n Hrel IH Hn]; intros fuel fs Hlen Ht [Hf Hab].
  - rewrite MkdirAll_fuel_eq. unfold FTP.Stat. cbn [FTP.c_Stat ftp].
    unfold fs_Stat.
    destruct (lookup n fs) as [[|]|] eqn:E;
      [cbn [IsDir]; eauto | congruence |].
    cbv zeta. rewrite (scan_name n (proj2 Hn)). cbn [Nat.ltb Nat.leb].
    destruct (MakeDir_checked_creates n fs) as [fs' [Hm Ht']];
      [congruence | | exact Ht | |].
    + unfold parent_ok. now rewrite (dirname_name n Hn).
    + intros a b Hq. exfalso. exact (name_not_child _ _ _ (proj2 Hn) Hq).
    + rewrite Hm. eauto.
  - rewrite MkdirAll_fuel_eq. unfold FTP.Stat. cbn [FTP.c_Stat ftp].
    unfold fs_Stat.
    destruct (lookup (p ++ "/" ++ n) fs) as [[|]|] eqn:E;
      [cbn [IsDir]; eauto | congruence |].
    destruct (parent_of_child p n Hn) as [Hj Hs]. cbv zeta.
    rewrite Hs, Hj.
    pose proof (relative_nonempty p Hrel) as Hpl.
    destruct (1 <? String.length p + 1)%nat eqn:E1.
    2:{ apply Nat.ltb_ge in E1. lia. }
    rewrite child_length in Hlen.
    destruct fuel as [|fuel]; [lia|].
    destruct (IH fuel fs) as [fs1 [Hrec Ht1]]; [lia | exact Ht | |].
    { split; [apply (Hab p n eq_refl)|].
      intros a b ->. apply (Hab a (b ++ "/" ++ n)).
      rewrite !append_assoc. reflexivity. }
    rewrite Hrec.
    pose proof (MkdirAll_server_grows _ _ _ _ _ Hrec)
      as (Hdir & _ & Hnf & _).
    specialize (Hdir eq_refl).
    destruct (MakeDir_checked_creates (p ++ "/" ++ n) fs1)
      as [fs' [Hm Ht']]; [| | exact Ht1 | |].
    + intros Hx. apply Hnf in Hx. congruence.
    + unfold parent_ok. rewrite (dirname_child p n Hn), Hdir.
      apply orb_true_r.
    + intros a b Hq.
      destruct (above_child p a n b (proj2 Hn) Hq) as [->|[b' ->]];
        [exact Hdir|].
      apply lookup_In in Hdir. eapply Ht1; [exact Hdir | reflexivity].
    + rewrite Hm. eauto.
Qed.

End PathFacts.

(** X12.  mkdir -p on the server: for a tree, a relative path [n1/.../nk]
    of non-empty names without separator, and no plain file at the path or
    at one of its directory prefixes, [MkdirAll] returns nil; afterwards
    the path is a directory, the tree is still a tree (so every prefix
    [n1/.../ni] is a directory), and every entry that was there is
    unchanged. *)
Theorem MkdirAll_makes_the_path (path : string) (fs : MemFS.FS) :
  Paths.relative_path path ->
  MemFS.wf fs = true ->
  Paths.free_way path fs ->
  exists fs',
    FTP.MkdirAll MemFS.ftp path fs = Some (None, fs') /\
    MemFS.lookup path fs' = Some true /\
    MemFS.is_tree fs' /\
    (forall a b, path = a ++ "/" ++ b -> MemFS.lookup a fs' = Some true) /\
    (forall q d, MemFS.lookup q fs = Some d -> MemFS.lookup q fs' = Some d).
Proof.
  intros Hrel Hwf Hfree.
  destruct (PathFacts.MkdirAll_relative path Hrel (String.length path) fs
              (Nat.le_refl _) (MemFSFacts.wf_is_tree fs Hwf) Hfree)
    as [fs' [H Ht]].
  pose proof (MkdirFacts.MkdirAll_server_grows _ _ _ _ _ H)
    as (Hd & Hk & _ & _).
  specialize (Hd eq_refl).
  exists fs'. repeat split; auto.
  intros a b Hq. apply MemFSFacts.lookup_In in Hd.
  eapply Ht; eassumption.
Qed.

Lemma MkdirAll_makes_the_path_witness :
  exists fs',
    FTP.MkdirAll MemFS.ftp "d/s/t" Scenario.small = Some (None, fs') /\
    MemFS.lookup "d/s/t" fs' = Some true /\
    MemFS.is_tree fs' /\
    (forall a b, "d/s/t" = a ++ "/" ++ b -> MemFS.lookup a fs' = Some true) /\
    (forall q d, MemFS.lookup q Scenario.small = Some d ->
                 MemFS.lookup q fs' = Some d).
Proof.
  apply (MkdirAll_makes_the_path "d/s/t" Scenario.small).
  - apply (Paths.rp_child "d/s" "t");
      [apply (Paths.rp_child "d" "s");
        [apply Paths.rp_name|] |];
      (split; [discriminate | reflexivity]).
  - reflexivity.
  - split; [vm_compute; discriminate|].
    intros a b Hq.
    destruct (PathFacts.above_child "d/s" a "t" b eq_refl Hq)
      as [->|[b1 H1]]; [vm_compute; discriminate|].
    destruct (PathFacts.above_child "d" a "s" b1 eq_refl H1)
      as [->|[b2 H2]]; [vm_compute; discriminate|].
    exfalso. exact (PathFacts.name_not_child "d" a b2 eq_refl H2).
Defined.

(* ================================================================== *)
(** ** The local backend when [Stat] is refused *)

(** X15.  When [os.Stat] fails with an error that is not of class NotExist
    (permission denied, say), the local [MakedirAll] and [MakeDir] return
    nil and call neither [os.MkdirAll] nor [os.Mkdir]: the state is the one
    [Stat] left. *)
Theorem local_mkdir_swallows_Stat_error {St : Type} (os : Local.OS St)
    (path : string) (s s1 : St) (e : error) :
  Local.os_Stat os path s = (inr e, s1) ->
  errors_Is e ErrNotExist = false ->
  Local.MakedirAll os path s = (None, s1) /\
  Local.MakeDir os path s = (None, s1).
Proof.
  intros E Hi. unfold Local.MakedirAll, Local.MakeDir. rewrite E.
  cbn [Local.err_of errors_Is_opt]. rewrite Hi. split; reflexivity.
Qed.

Lemma local_mkdir_swallows_Stat_error_witness :
  Local.MakedirAll Refusing.os "data" 0 = (None, 0) /\
  Local.MakeDir Refusing.os "data" 0 = (None, 0).
Proof.
  apply (local_mkdir_swallows_Stat_error Refusing.os "data" 0 0
           Refusing.denied); reflexivity.
Defined.

(* ================================================================== *)
(** ** [Ping] of the FTP backend *)

(** X18.  [Ping]: when the raw connection cannot be opened, its error is
    returned and nothing else is called.  Otherwise FEAT is sent once and
    the connection is closed once, whatever the answer; the result is nil
    exactly when the command succeeded with code 211 and a text containing
    "REST"; an error of the command is returned as it is. *)
Theorem Ping_result {St : Type} (c : FTPConn.Raw St) (s : St)
    (log : list FTPConn.RawCall) :
  match FTPConn.OpenRawConn c s with
  | (Some e, s1) =>
      FTPConn.Ping (FTPConn.logged_raw c) (s, log)
      = (Some e, (s1, (log ++ [FTPConn.POpen])%list))
  | (None, s1) =>
      let '((code, msg, err), s2) := FTPConn.SendCommand c "FEAT" s1 in
      let '(_, s3) := FTPConn.CloseRaw c s2 in
      exists r,
        FTPConn.Ping (FTPConn.logged_raw c) (s, log)
        = (r, (s3, (log ++ [FTPConn.POpen; FTPConn.PSend "FEAT";
                            FTPConn.PClose])%list)) /\
        (r = None <->
         err = None /\ code = 211 /\ Contains msg "REST" = true) /\
        (forall e, err = Some e -> r = Some e)
  end.
Proof.
  unfold FTPConn.Ping.
  cbn [FTPConn.OpenRawConn FTPConn.SendCommand FTPConn.CloseRaw
       FTPConn.logged_raw].
  destruct (FTPConn.OpenRawConn c s) as [[e|] s1]; [reflexivity|].
  destruct (FTPConn.SendCommand c "FEAT" s1) as [[[code msg] err] s2].
  destruct (FTPConn.CloseRaw c s2) as [x s3].
  eexists. split; [rewrite <- !app_assoc; reflexivity|].
  unfold FTPConn.feat_result. destruct err as [e|].
  - split; [|intros e0 H; exact H].
    split; [discriminate | intros [H _]; discriminate].
  - split; [|discriminate].
    destruct (code =? 211)%nat eqn:Ec; cbn [negb orb].
    + apply Nat.eqb_eq in Ec.
      destruct (Contains msg "REST"); cbn [negb]; split; auto;
        try discriminate.
      intros (_ & _ & H). discriminate.
    + apply Nat.eqb_neq in Ec. split; [discriminate|].
      intros (_ & H & _). contradiction.
Qed.

(* ================================================================== *)
(** ** [NewClientSSH] *)

(** X16.  [NewClientSSH] with an [AuthMethod] other than exactly "key",
    "password" or "keyboard" returns the error
    "[<method>] unsupported authentication method"; it reads no key,
    dials nothing, and leaves the Config (its port too) as it was. *)
Theorem NewClientSSH_unsupported_method {St Signer Conn : Type}
    (env : SSH.Env St Signer Conn) (c : SSH.Config) (s : St) :
  SSH.AuthMethod c <> "key" ->
  SSH.AuthMethod c <> "password" ->
  SSH.AuthMethod c <> "keyboard" ->
  SSH.NewClientSSH env c s
  = ((inr (Library ("[" ++ SSH.AuthMethod c
                    ++ "] unsupported authentication method") None), c), s).
Proof.
  intros H1 H2 H3. unfold SSH.NewClientSSH.
  apply String.eqb_neq in H1, H2, H3. rewrite H1, H2, H3. reflexivity.
Qed.

Lemma NewClientSSH_unsupported_method_witness :
  SSH.NewClientSSH SSH.counting
    (SSH.mkConfig "host" "" "Password" "user" "secret" "" 0) 0
  = ((inr (Library "[Password] unsupported authentication method" None),
      SSH.mkConfig "host" "" "Password" "user" "secret" "" 0), 0).
Proof.
  apply (NewClientSSH_unsupported_method SSH.counting
           (SSH.mkConfig "host" "" "Password" "user" "secret" "" 0) 0);
    discriminate.
Defined.

Lemma assign_at_end (pre rest : list string) (x v : string) :
  SSH.assign (pre ++ x :: rest) (List.length pre) v = (pre ++ v :: rest)%list.
Proof.
  induction pre as [|y pre IH]; [reflexivity|].
  cbn [app List.length SSH.assign]. now rewrite IH.
Qed.

Lemma assign_all (v : string) (m : nat) :
  forall pre rest,
  List.length rest = m ->
  fold_left (fun a i => SSH.assign a i v) (seq (List.length pre) m)
    (pre ++ rest)%list
  = (pre ++ repeat v m)%list.
Proof.
  induction m as [|m IH]; intros pre rest Hl.
  - destruct rest; [reflexivity | discriminate].
  - destruct rest as [|x rest]; [discriminate|].
    injection Hl as Hl. cbn [seq fold_left repeat].
    rewrite assign_at_end.
    replace (S (List.length pre)) with (List.length (pre ++ [v])%list)
      by (rewrite length_app; simpl; lia).
    change (pre ++ v :: rest)%list with (pre ++ [v] ++ rest)%list.
    rewrite app_assoc, (IH _ _ Hl), <- app_assoc. reflexivity.
Qed.

(** X17.  The keyboard-interactive challenge function answers every
    challenge with as many answers as there are questions, each of them
    the password, and never fails, whatever the user, the instruction, the
    questions and the echo flags. *)
Theorem answer_all_gives_password (password user instruction : string)
    (questions : list string) (echos : list bool) :
  SSH.answer_all password user instruction questions echos
  = (repeat password (List.length questions), None).
Proof.
  unfold SSH.answer_all. f_equal.
  rewrite repeat_length.
  apply (assign_all password (List.length questions) []).
  apply repeat_length.
Qed.

(* ================================================================== *)
(** ** [SaveFile] of the SFTP backend *)


(* ================================================================== *)
(** ** [MkdirAll] when a plain file is in the way *)

Lemma MkdirAll_blocked (path : string) :
  Paths.relative_path path ->
  forall fuel fs a b,
  String.length path <= fuel ->
  MemFS.is_tree fs ->
  path = a ++ "/" ++ b ->
  MemFS.lookup a fs = Some false ->
  FTP.MkdirAll_fuel MemFS.ftp fuel path fs
  = Some (Some (PathError "mkdir" a ENOTDIR), fs).
Proof.
  induction 1 as [n Hn | p n Hrel IH Hn];
    intros fuel fs a b Hlen Ht Hq Ha.
  - exfalso. exact (PathFacts.name_not_child _ _ _ (proj2 Hn) Hq).
  - assert (E : MemFS.lookup (p ++ "/" ++ n) fs = None).
    { destruct (MemFS.lookup (p ++ "/" ++ n) fs) as [d|] eqn:E;
        [|reflexivity].
      apply MemFSFacts.lookup_In in E.
      rewrite (Ht _ _ a b E Hq) in Ha. discriminate. }
    rewrite MkdirFacts.MkdirAll_fuel_eq. unfold FTP.Stat.
    cbn [FTP.c_Stat MemFS.ftp]. unfold MemFS.fs_Stat. rewrite E.
    destruct (PathFacts.parent_of_child p n Hn) as [Hj Hs]. cbv zeta.
    rewrite Hs, Hj.
    pose proof (PathFacts.relative_nonempty p Hrel) as Hpl.
    destruct (1 <? String.length p + 1)%nat eqn:E1.
    2:{ apply Nat.ltb_ge in E1. lia. }
    rewrite PathFacts.child_length in Hlen.
    destruct fuel as [|fuel]; [lia|].
    destruct (PathFacts.above_child p a n b (proj2 Hn) Hq) as [->|[b' Hp]].
    + rewrite MkdirFacts.MkdirAll_fuel_eq. unfold FTP.Stat.
      cbn [FTP.c_Stat MemFS.ftp]. unfold MemFS.fs_Stat. rewrite Ha.
      reflexivity.
    + rewrite (IH fuel fs a b'); [reflexivity | lia | exact Ht | exact Hp
                                 | exact Ha].
Qed.

(** X14.  On the server, for a tree and a relative path of names: when one
    of the directory prefixes of the path is a plain file, [MkdirAll]
    returns the path error ENOTDIR naming that file (not the path asked
    for), and leaves the tree exactly as it was: no directory is made on
    the way. *)
Theorem MkdirAll_blocked_by_file (path a b : string) (fs : MemFS.FS) :
  Paths.relative_path path ->
  MemFS.wf fs = true ->
  path = a ++ "/" ++ b ->
  MemFS.lookup a fs = Some false ->
  FTP.MkdirAll MemFS.ftp path fs
  = Some (Some (PathError "mkdir" a ENOTDIR), fs).
Proof.
  intros Hrel Hwf Hq Ha.
  apply (MkdirAll_blocked path Hrel (String.length path) fs a b
           (Nat.le_refl _) (MemFSFacts.wf_is_tree fs Hwf) Hq Ha).
Qed.

Lemma MkdirAll_blocked_by_file_witness :
  FTP.MkdirAll MemFS.ftp "d/a/x/y" Scenario.small
  = Some (Some (PathError "mkdir" "d/a" ENOTDIR), Scenario.small).
Proof.
  apply (MkdirAll_blocked_by_file "d/a/x/y" "d/a" "x/y" Scenario.small);
    [| reflexivity | reflexivity | reflexivity].
  apply (Paths.rp_child "d/a/x" "y");
    [apply (Paths.rp_child "d/a" "x");
      [apply (Paths.rp_child "d" "a"); [apply Paths.rp_name|] |] |];
    (split; [discriminate | reflexivity]).
Defined.
